(** * rcon-cli: the BattlEye RCon packet codec and client session

    A shallow embedding of [rconmsg.hh], [rconmsg.cc], [rconexception.hh]
    and of the protocol part of [RconApp] ([rcon.cc]), with the properties
    of the codec and of the session proved about it.

    Conventions.
    - A [uint8_t] is a [Byte.byte]; a [std::string] is a [string]; a packet
      buffer is a [list byte].
    - [size_t] and [uint32_t] values are [Z], with the wrap-around of the
      64-bit and 32-bit arithmetic written out ([size_sub], [uint32]).
    - The target is the one of the Makefile (g++ on Linux, little-endian):
      the [uint32_t] written through [(uint32_t* )(buffer + 2)] occupies its
      four bytes least-significant first.
    - C++ exceptions are the [Throw] outcome; an access outside the bytes a
      caller handed over has no defined behaviour in C++ and is the
      [Undefined] outcome.
    - [new char[n]] throws [std::bad_alloc] when [n] exceeds [PTRDIFF_MAX],
      the largest size of an object, and succeeds otherwise. *)

From Stdlib Require Import ZArith Lia Bool.
From Stdlib Require Import Strings.Byte Strings.Ascii Strings.String.
From Stdlib Require Import Numbers.HexadecimalString.
From stdpp Require Import base list.

Local Open Scope Z_scope.

(** ** Bytes and machine words *)

Definition byte_val (b : byte) : Z := Z.of_N (Byte.to_N b).

(** Conversion to [uint8_t]: the low eight bits. *)
Definition to_uint8 (z : Z) : byte :=
  match Byte.of_N (Z.to_N (z mod 256)) with
  | Some b => b
  | None => x00
  end.

(** Conversion to [uint32_t]. *)
Definition uint32 (z : Z) : Z := z mod 2 ^ 32.

(** [a - b] and [a + b] on [size_t], for [a] and [b] below [2 ^ 64]. *)
Definition size_sub (a b : Z) : Z :=
  if b <=? a then a - b else a - b + 2 ^ 64.

Definition size_add (a b : Z) : Z :=
  if a + b <? 2 ^ 64 then a + b else a + b - 2 ^ 64.

Definition PTRDIFF_MAX : Z := 2 ^ 63 - 1.

(** [os << std::hex << n] for an unsigned integer [n]. *)
Definition hex (n : Z) : string := NilZero.string_of_uint (N.to_hex_uint (Z.to_N n)).

(** [os << c] for a [uint8_t], which is a character type. *)
Definition chr (b : byte) : string := String (ascii_of_byte b) EmptyString.

(** [std::endl]. *)
Definition endl : string := String (ascii_of_byte x0a) EmptyString.

(** ** zlib's [crc32]

    [crc32(crc, buf, len)] of zlib is the CRC-32 of ISO 3309 and ITU-T V.42:
    reflected polynomial [0xEDB88320], the running value complemented on
    entry and on exit. *)

Fixpoint crc32_bits (k : nat) (c : Z) : Z :=
  match k with
  | O => c
  | S k' =>
      crc32_bits k'
        (if Z.odd c then Z.lxor (Z.shiftr c 1) 0xEDB88320 else Z.shiftr c 1)
  end.

Definition crc32_update (c : Z) (b : byte) : Z :=
  crc32_bits 8 (Z.lxor c (byte_val b)).

Definition crc32 (crc : Z) (buf : list byte) : Z :=
  Z.lxor (fold_left crc32_update buf (Z.lxor crc 0xFFFFFFFF)) 0xFFFFFFFF.

(** ** Exceptions and outcomes

    The classes of [rconexception.hh], and [std::bad_alloc]. *)

Inductive Exception : Type :=
  | ProtocolException (msg : string)
  | SocketException (msg : string)
  | AppException (msg : string)
  | bad_alloc.

(** The member [exMsg] of [Rcon::Exception]: each class puts its prefix
    before the message it is constructed with. [std::bad_alloc] has no such
    member; for it, the string its [what()] points to in libstdc++. *)
Definition exMsg (e : Exception) : string :=
  match e with
  | ProtocolException msg => "Protocol Error: " ++ msg
  | SocketException msg => "Socket Error: " ++ msg
  | AppException msg => "Application Error: " ++ msg
  | bad_alloc => "std::bad_alloc"
  end%string.

(** An access to [count] bytes from offset [first] of a buffer that does not
    hold them. *)
Inductive Violation : Type :=
  | OutOfRange (first count : Z).

Inductive outcome (A : Type) : Type :=
  | Ret (a : A)
  | Throw (e : Exception)
  | Undefined (v : Violation).

Arguments Ret {A} a.
Arguments Throw {A} e.
Arguments Undefined {A} v.

Definition bind {A B : Type} (m : outcome A) (k : A -> outcome B) : outcome B :=
  match m with
  | Ret a => k a
  | Throw e => Throw e
  | Undefined v => Undefined v
  end.

Notation "x <- m ;; k" := (bind m (fun x => k))
  (at level 100, m at next level, right associativity).

(** [new char[n]]; the array itself is modelled where it is filled. *)
Definition new_char (n : Z) : outcome unit :=
  if PTRDIFF_MAX <? n then Throw bad_alloc else Ret tt.

(** ** Buffers

    A buffer is the sequence of bytes a caller hands over together with its
    length; offsets are [size_t] values. *)

Definition size (buffer : list byte) : Z := Z.of_nat (length buffer).

(** [buffer[i]] as an rvalue. *)
Definition load (buffer : list byte) (i : Z) : outcome byte :=
  match (if 0 <=? i then buffer !! Z.to_nat i else None) with
  | Some b => Ret b
  | None => Undefined (OutOfRange i 1)
  end.

(** [buffer[i] = v]. *)
Definition store (buffer : list byte) (i : Z) (v : byte) : outcome (list byte) :=
  match (if 0 <=? i then buffer !! Z.to_nat i else None) with
  | Some _ => Ret (<[Z.to_nat i := v]> buffer)
  | None => Undefined (OutOfRange i 1)
  end.

(** The bytes [buffer[first] .. buffer[first + count - 1]]. *)
Definition range (buffer : list byte) (first count : Z) : outcome (list byte) :=
  if (0 <=? first) && (0 <=? count) && (first + count <=? size buffer)
  then Ret (take (Z.to_nat count) (drop (Z.to_nat first) buffer))
  else Undefined (OutOfRange first count).

(** [std::fill(buffer + first, buffer + first + count, v)]. *)
Fixpoint fill (buffer : list byte) (first : Z) (count : nat) (v : byte)
  : outcome (list byte) :=
  match count with
  | O => Ret buffer
  | S count' =>
      buffer <- store buffer first v ;;
      fill buffer (first + 1) count' v
  end.

(** [std::copy(src.begin(), src.end(), buffer + dst)]. *)
Fixpoint copy (src : list byte) (buffer : list byte) (dst : Z)
  : outcome (list byte) :=
  match src with
  | [] => Ret buffer
  | c :: src' =>
      buffer <- store buffer dst c ;;
      copy src' buffer (dst + 1)
  end.

(** The four bytes of a [uint32_t] in memory and the value of four bytes
    read as a [uint32_t]. *)
Definition bytes_of_uint32 (v : Z) : list byte :=
  [to_uint8 v; to_uint8 (Z.shiftr v 8); to_uint8 (Z.shiftr v 16);
   to_uint8 (Z.shiftr v 24)].

Definition uint32_of_bytes (b0 b1 b2 b3 : byte) : Z :=
  byte_val b0 + Z.shiftl (byte_val b1) 8 + Z.shiftl (byte_val b2) 16
  + Z.shiftl (byte_val b3) 24.

(** [*(uint32_t* )(buffer + i) = v]. *)
Definition store32 (buffer : list byte) (i : Z) (v : Z) : outcome (list byte) :=
  copy (bytes_of_uint32 v) buffer i.

(** [*(uint32_t* )(buffer + i)]. *)
Definition load32 (buffer : list byte) (i : Z) : outcome Z :=
  b0 <- load buffer i ;;
  b1 <- load buffer (i + 1) ;;
  b2 <- load buffer (i + 2) ;;
  b3 <- load buffer (i + 3) ;;
  Ret (uint32_of_bytes b0 b1 b2 b3).

(** ** Messages ([rconmsg.hh]) *)

Inductive MsgType : Type :=
  | MSG_NONE
  | MSG_LOGIN
  | MSG_LOGIN_RESP
  | MSG_CMD
  | MSG_CMD_RESP
  | MSG_CMD_PART_RESP
  | MSG_SRV_MSG
  | MSG_SRV_ACK.

Definition INITIAL_PACKET_LENGTH : Z := 8.
Definition PKT_LOGIN : byte := x00.
Definition PKT_MULTI : byte := x00.
Definition PKT_CMD : byte := x01.
Definition PKT_SERVER : byte := x02.

(** The concrete message classes, each with the members its constructor
    initialises. *)
Inductive Message : Type :=
  | Login (mPassword : string)
  | LoginResponse (mResult : byte)
  | ServerMessage (mSeqNum : byte) (mMsg : string)
  | ServerAck (mSeqNum : byte)
  | Command (mSeqNum : byte) (mCmdStr : string)
  | CommandResponse (mSeqNum : byte) (mMsg : string)
  | CommandPartialResponse (mNofParts mPartIdx : byte) (mMsg : string).

Definition getType (m : Message) : MsgType :=
  match m with
  | Login _ => MSG_LOGIN
  | LoginResponse _ => MSG_LOGIN_RESP
  | ServerMessage _ _ => MSG_SRV_MSG
  | ServerAck _ => MSG_SRV_ACK
  | Command _ _ => MSG_CMD
  | CommandResponse _ _ => MSG_CMD_RESP
  | CommandPartialResponse _ _ _ => MSG_CMD_PART_RESP
  end.

Definition getCommand (m : Message) : string :=
  match m with
  | Command _ cmd => cmd
  | _ => EmptyString
  end.

Definition MsgType_eqb (a b : MsgType) : bool :=
  match a, b with
  | MSG_NONE, MSG_NONE | MSG_LOGIN, MSG_LOGIN
  | MSG_LOGIN_RESP, MSG_LOGIN_RESP | MSG_CMD, MSG_CMD
  | MSG_CMD_RESP, MSG_CMD_RESP | MSG_CMD_PART_RESP, MSG_CMD_PART_RESP
  | MSG_SRV_MSG, MSG_SRV_MSG | MSG_SRV_ACK, MSG_SRV_ACK => true
  | _, _ => false
  end.

(** ** The sequence allocator

    [mNextSeqNum] is a static [uint8_t]; the functions that use it take its
    value and return the new one. *)

Definition getNextSeqNum (mNextSeqNum : byte) : byte * byte :=
  (mNextSeqNum, to_uint8 (byte_val mNextSeqNum + 1)).

(** [Command(const std::string & cmd)]. *)
Definition Command_new (cmd : string) (mNextSeqNum : byte) : Message * byte :=
  let (seqnum, mNextSeqNum) := getNextSeqNum mNextSeqNum in
  (Command seqnum cmd, mNextSeqNum).

(** [Command(const std::string & cmd, uint8_t seqnum)]. *)
Definition Command_with (cmd : string) (seqnum : byte) : Message :=
  Command seqnum cmd.

(** [Command(const Command & command)]. *)
Definition Command_copy (command : Message) (mNextSeqNum : byte) : Message * byte :=
  let (seqnum, mNextSeqNum) := getNextSeqNum mNextSeqNum in
  (Command seqnum (getCommand command), mNextSeqNum).

(** ** Encoding *)

Definition encodeHeader (buffer : list byte) : outcome (list byte) :=
  buffer <- store buffer 0 x42 ;;
  buffer <- store buffer 1 x45 ;;
  buffer <- fill buffer 2 (5 - 2) x00 ;;
  store buffer 6 xff.

Definition calculateCrc (buffer : list byte) (length : Z) : outcome (list byte) :=
  data <- range buffer 6 (size_sub length 6) ;;
  store32 buffer 2 (uint32 (crc32 0 data)).

Definition strsize (s : string) : Z := Z.of_nat (String.length s).

Definition Login_encode (mPassword : string) (buffer : list byte)
  : outcome (list byte * Z) :=
  let length := 8 in
  buffer <- encodeHeader buffer ;;
  buffer <- store buffer 7 PKT_LOGIN ;;
  buffer <- copy (list_byte_of_string mPassword) buffer length ;;
  let length := length + strsize mPassword in
  buffer <- calculateCrc buffer length ;;
  Ret (buffer, length).

Definition LoginResponse_encode (mResult : byte) (buffer : list byte)
  : outcome (list byte * Z) :=
  let length := 9 in
  buffer <- encodeHeader buffer ;;
  buffer <- store buffer 7 PKT_LOGIN ;;
  buffer <- store buffer 8 mResult ;;
  buffer <- calculateCrc buffer length ;;
  Ret (buffer, length).

Definition ServerMessage_encode (mSeqNum : byte) (mMsg : string)
  (buffer : list byte) : outcome (list byte * Z) :=
  let length := 9 in
  buffer <- encodeHeader buffer ;;
  buffer <- store buffer 7 PKT_SERVER ;;
  buffer <- store buffer 8 mSeqNum ;;
  buffer <- copy (list_byte_of_string mMsg) buffer length ;;
  let length := length + strsize mMsg in
  buffer <- calculateCrc buffer length ;;
  Ret (buffer, length).

Definition ServerAck_encode (mSeqNum : byte) (buffer : list byte)
  : outcome (list byte * Z) :=
  let length := 9 in
  buffer <- encodeHeader buffer ;;
  buffer <- store buffer 7 PKT_SERVER ;;
  buffer <- store buffer 8 mSeqNum ;;
  buffer <- calculateCrc buffer length ;;
  Ret (buffer, length).

Definition Command_encode (mSeqNum : byte) (mCmdStr : string)
  (buffer : list byte) : outcome (list byte * Z) :=
  let length := 9 in
  buffer <- encodeHeader buffer ;;
  buffer <- store buffer 7 PKT_CMD ;;
  buffer <- store buffer 8 mSeqNum ;;
  buffer <- copy (list_byte_of_string mCmdStr) buffer length ;;
  let length := length + strsize mCmdStr in
  buffer <- calculateCrc buffer length ;;
  Ret (buffer, length).

Definition CommandResponse_encode (mSeqNum : byte) (mMsg : string)
  (buffer : list byte) : outcome (list byte * Z) :=
  let length := 9 in
  buffer <- encodeHeader buffer ;;
  buffer <- store buffer 7 PKT_CMD ;;
  buffer <- store buffer 8 mSeqNum ;;
  buffer <- copy (list_byte_of_string mMsg) buffer length ;;
  let length := length + strsize mMsg in
  buffer <- calculateCrc buffer length ;;
  Ret (buffer, length).

Definition CommandPartialResponse_encode (mNofParts mPartIdx : byte)
  (mMsg : string) (buffer : list byte) : outcome (list byte * Z) :=
  let length := 10 in
  buffer <- encodeHeader buffer ;;
  buffer <- store buffer 7 PKT_MULTI ;;
  buffer <- store buffer 8 mNofParts ;;
  buffer <- store buffer 9 mPartIdx ;;
  buffer <- copy (list_byte_of_string mMsg) buffer length ;;
  let length := length + strsize mMsg in
  buffer <- calculateCrc buffer length ;;
  Ret (buffer, length).

(** The virtual [encode]: the buffer after the call and the length returned. *)
Definition encode (m : Message) (buffer : list byte) : outcome (list byte * Z) :=
  match m with
  | Login mPassword => Login_encode mPassword buffer
  | LoginResponse mResult => LoginResponse_encode mResult buffer
  | ServerMessage mSeqNum mMsg => ServerMessage_encode mSeqNum mMsg buffer
  | ServerAck mSeqNum => ServerAck_encode mSeqNum buffer
  | Command mSeqNum mCmdStr => Command_encode mSeqNum mCmdStr buffer
  | CommandResponse mSeqNum mMsg => CommandResponse_encode mSeqNum mMsg buffer
  | CommandPartialResponse mNofParts mPartIdx mMsg =>
      CommandPartialResponse_encode mNofParts mPartIdx mMsg buffer
  end.

(** ** Decoding *)

(** The characters of the C string that starts at the head of [tmp]: those
    before its first [0x00]. *)
Fixpoint c_str (tmp : list byte) : list byte :=
  match tmp with
  | [] => []
  | c :: tmp' => if Byte.eqb c x00 then [] else c :: c_str tmp'
  end.

(** [extractStr(buffer + first, length)]: [length] bytes are copied to a
    fresh array of [length + 1] bytes, a terminator is put after them, and
    the result is the [std::string] built from that C string. The array is
    taken to be released by [delete tmp]. *)
Definition extractStr (buffer : list byte) (first length : Z) : outcome string :=
  _ <- new_char (size_add length 1) ;;
  tmp <- range buffer first length ;;
  let tmp := tmp ++ [x00] in
  Ret (string_of_list_byte (c_str tmp)).

(** [Message::decode(buffer, length)], where [buffer] holds the [length]
    bytes supplied. *)
Definition decode (buffer : list byte) : outcome Message :=
  let length := size buffer in
  if length <? 8 then
    Throw (ProtocolException "Empty packet received!")
  else
    b0 <- load buffer 0 ;;
    b1 <- load buffer 1 ;;
    if negb (Byte.eqb b0 x42) || negb (Byte.eqb b1 x45) then
      Throw (ProtocolException
               "Key bytes 'B','E' were not matched in packet header!")
    else
      data <- range buffer 6 (size_sub length 6) ;;
      let test_crc32 := uint32 (crc32 0 data) in
      actual_crc32 <- load32 buffer 2 ;;
      if negb (test_crc32 =? actual_crc32) then
        Throw (ProtocolException
                 ("CRC32 check failed against " ++ hex test_crc32
                  ++ ", packet is corrupted!" ++ endl))
      else
        b6 <- load buffer 6 ;;
        if negb (Byte.eqb b6 xff) then
          Throw (ProtocolException
                   ("Unexpected byte " ++ chr b6 ++ " received at position 6!"))
        else
          b7 <- load buffer 7 ;;
          if Byte.eqb b7 PKT_LOGIN then
            if length =? 9 then
              b8 <- load buffer 8 ;;
              Ret (LoginResponse b8)
            else
              msg <- extractStr buffer 10 (size_sub length 10) ;;
              b8 <- load buffer 8 ;;
              b9 <- load buffer 9 ;;
              Ret (CommandPartialResponse b8 b9 msg)
          else if Byte.eqb b7 PKT_CMD then
            msg <- extractStr buffer 9 (size_sub length 9) ;;
            b8 <- load buffer 8 ;;
            Ret (CommandResponse b8 msg)
          else if Byte.eqb b7 PKT_SERVER then
            msg <- extractStr buffer 9 (size_sub length 9) ;;
            b8 <- load buffer 8 ;;
            Ret (ServerMessage b8 msg)
          else
            Throw (ProtocolException
                     ("Unknown message type " ++ chr b7 ++ " received!")).

(** ** The session ([rcon.cc])

    The world a session runs in: the socket, the console, and the static
    sequence counter. *)

Definition BUF_SIZE : Z := 2048.

(** What one call of [receivePacket] meets on the socket. *)
Inductive Arrival : Type :=
  | SelectFails
  | TimesOut
  | ReadFails
  | Datagram (bytes : list byte).

Record World : Type := mkWorld {
  (** what the successive calls of [receivePacket] meet; once it is used up
      nothing arrives any more and [select] times out *)
  inbox : list Arrival;
  (** whether the successive calls of [write] take the whole packet; once it
      is used up every [write] does *)
  writes : list bool;
  (** the packets written to the socket, oldest first *)
  sent : list (list byte);
  (** the words [std::cin >> cmdStr] will read *)
  stdin : list string;
  (** what was written to [std::cout], oldest first *)
  stdout : list string;
  mNextSeqNum : byte;
  (** whether [close(mSocketFd)] was called *)
  closed : bool
}.

Definition set_inbox (v : list Arrival) (w : World) : World :=
  mkWorld v (writes w) (sent w) (stdin w) (stdout w) (mNextSeqNum w) (closed w).
Definition set_writes (v : list bool) (w : World) : World :=
  mkWorld (inbox w) v (sent w) (stdin w) (stdout w) (mNextSeqNum w) (closed w).
Definition set_sent (v : list (list byte)) (w : World) : World :=
  mkWorld (inbox w) (writes w) v (stdin w) (stdout w) (mNextSeqNum w) (closed w).
Definition set_stdin (v : list string) (w : World) : World :=
  mkWorld (inbox w) (writes w) (sent w) v (stdout w) (mNextSeqNum w) (closed w).
Definition set_stdout (v : list string) (w : World) : World :=
  mkWorld (inbox w) (writes w) (sent w) (stdin w) v (mNextSeqNum w) (closed w).
Definition set_mNextSeqNum (v : byte) (w : World) : World :=
  mkWorld (inbox w) (writes w) (sent w) (stdin w) (stdout w) v (closed w).
Definition set_closed (v : bool) (w : World) : World :=
  mkWorld (inbox w) (writes w) (sent w) (stdin w) (stdout w) (mNextSeqNum w) v.

(** A member function of [RconApp]: an outcome and the world it leaves. *)
Definition Session (A : Type) : Type := World -> outcome A * World.

Definition ret {A : Type} (a : A) : Session A := fun w => (Ret a, w).

Definition throw {A : Type} (e : Exception) : Session A := fun w => (Throw e, w).

Definition andThen {A B : Type} (m : Session A) (k : A -> Session B) : Session B :=
  fun w =>
    match m w with
    | (Ret a, w') => k a w'
    | (Throw e, w') => (Throw e, w')
    | (Undefined v, w') => (Undefined v, w')
    end.

Notation "x <~ m ;; k" := (andThen m (fun x => k))
  (at level 100, m at next level, right associativity).
Notation "m ;;; k" := (andThen m (fun _ => k))
  (at level 100, right associativity).

(** [std::cout << text]. *)
Definition print (text : string) : Session unit :=
  fun w => (Ret tt, set_stdout (stdout w ++ [text]) w).

(** [closeConnection()]. *)
Definition closeConnection : Session unit :=
  fun w => (Ret tt, set_closed true w).

(** [sendPacket(msg)]. The local array [buf] starts with indeterminate
    contents, taken here to be zeros; [encode] overwrites every byte that is
    handed to [write]. *)
Definition sendPacket (msg : Message) : Session unit :=
  fun w =>
    let buf := replicate (Z.to_nat BUF_SIZE) x00 in
    match encode msg buf with
    | Ret (buf, len) =>
        let packet := take (Z.to_nat len) buf in
        let w' := set_writes (tail (writes w)) w in
        match head (writes w) with
        | Some false => (Throw (ProtocolException "partial/failed write"), w')
        | _ => (Ret tt, set_sent (sent w ++ [packet]) w')
        end
    | Throw e => (Throw e, w)
    | Undefined v => (Undefined v, w)
    end.

(** [receivePacket()]: [read] fills at most [BUF_SIZE] bytes of a datagram. *)
Definition receivePacket : Session Message :=
  fun w =>
    match inbox w with
    | [] => (Throw (ProtocolException "timeout"), w)
    | SelectFails :: rest =>
        (Throw (ProtocolException "select() error"), set_inbox rest w)
    | TimesOut :: rest =>
        (Throw (ProtocolException "timeout"), set_inbox rest w)
    | ReadFails :: rest =>
        (Throw (ProtocolException "socket read error"),
         set_closed true (set_inbox rest w))
    | Datagram bytes :: rest =>
        (decode (take (Z.to_nat BUF_SIZE) bytes), set_inbox rest w)
    end.

(** [Command cmd(cmdStr)]. *)
Definition newCommand (cmdStr : string) : Session Message :=
  fun w =>
    let (cmd, next) := Command_new cmdStr (mNextSeqNum w) in
    (Ret cmd, set_mNextSeqNum next w).

Section RconApp.

(** [mOptions["interactive"]], [mOptions["quiet"]], the password read from
    the configuration file and the command [argv[optind+2]]. *)
Variables (interactive quiet : bool) (mPassword command : string).

(** [log(msg)]. *)
Definition log (msg : string) : Session unit :=
  if negb quiet then print msg else ret tt.

(** The login exchange of [run]. *)
Definition login : Session unit :=
  sendPacket (Login mPassword) ;;;
  rcvdMsg <~ receivePacket ;;
  match rcvdMsg with
  | LoginResponse mResult =>
      if Byte.eqb mResult x00
      then throw (ProtocolException "Wrong RCON password!")
      else ret tt
  | _ => throw (ProtocolException "Unexpected message received!")
  end.

(** The body of the inner [do ... while] of [run]: one packet is received
    and handled; the result is its type. *)
Definition handleResponse : Session MsgType :=
  rcvdMsg <~ receivePacket ;;
  let msgType := getType rcvdMsg in
  match rcvdMsg with
  | CommandResponse _ mMsg =>
      log (mMsg ++ endl) ;;;
      ret msgType
  | CommandPartialResponse _ _ mMsg =>
      log (mMsg ++ endl) ;;;
      ret msgType
  | ServerMessage seqNum mMsg =>
      log (mMsg ++ endl) ;;;
      sendPacket (ServerAck seqNum) ;;;
      ret msgType
  | _ => ret msgType
  end.

(** The inner [do ... while (msgType == MSG_CMD_PART_RESP || msgType ==
    MSG_SRV_MSG)], with a bound on the number of iterations; [None] when
    the bound is reached. *)
Fixpoint handleResponses (fuel : nat) (w : World) : option (outcome unit * World) :=
  match fuel with
  | O => None
  | S fuel' =>
      match handleResponse w with
      | (Ret msgType, w') =>
          if MsgType_eqb msgType MSG_CMD_PART_RESP
             || MsgType_eqb msgType MSG_SRV_MSG
          then handleResponses fuel' w'
          else Some (Ret tt, w')
      | (Throw e, w') => Some (Throw e, w')
      | (Undefined v, w') => Some (Undefined v, w')
      end
  end.

(** [std::cin >> cmdStr], after the prompt, or the command of the command
    line. *)
Definition readCommand : Session string :=
  if interactive then
    print "> " ;;;
    fun w =>
      match stdin w with
      | [] => (Ret EmptyString, w)
      | word :: rest => (Ret word, set_stdin rest w)
      end
  else ret command.

(** The outer [do ... while (interactive)] of [run], with a bound on the
    number of iterations. *)
Fixpoint commands (fuel : nat) (w : World) : option (outcome unit * World) :=
  match fuel with
  | O => None
  | S fuel' =>
      match readCommand w with
      | (Ret cmdStr, w1) =>
          if String.eqb cmdStr "quit" || String.eqb cmdStr "exit"
          then Some (Ret tt, w1)
          else
            match (cmd <~ newCommand cmdStr ;; sendPacket cmd) w1 with
            | (Ret _, w2) =>
                match handleResponses (S (length (inbox w2))) w2 with
                | Some (Ret _, w3) =>
                    if interactive then commands fuel' w3
                    else Some (Ret tt, w3)
                | other => other
                end
            | (Throw e, w2) => Some (Throw e, w2)
            | (Undefined v, w2) => Some (Undefined v, w2)
            end
      | (Throw e, w1) => Some (Throw e, w1)
      | (Undefined v, w1) => Some (Undefined v, w1)
      end
  end.

(** What [run] does once the login is accepted. Every round of the outer
    loop that goes on has taken a packet from the inbox, which bounds the
    rounds. *)
Definition session (w1 : World) : option (outcome unit * World) :=
  let w2 :=
    if interactive
    then snd (print ("Type 'exit' or 'quit' to exit interactive mode."
                     ++ endl) w1)
    else w1 in
  match commands (S (length (inbox w2))) w2 with
  | Some (Ret _, w3) => Some (closeConnection w3)
  | other => other
  end.

(** [run], from the login on: the options are parsed, the connection is
    open and the password is read. *)
Definition run (w : World) : option (outcome unit * World) :=
  match login w with
  | (Ret _, w1) => session w1
  | (Throw e, w1) => Some (Throw e, w1)
  | (Undefined v, w1) => Some (Undefined v, w1)
  end.

End RconApp.

(** ** Vocabulary of the statements *)

(** The packet layout: magic, checksum of everything from the marker on,
    marker, then the type byte and the payload ([body]). *)
Definition frame (body : list byte) : list byte :=
  [x42; x45] ++ bytes_of_uint32 (uint32 (crc32 0 (xff :: body))) ++ xff :: body.

(** The type byte and the payload of each message class. *)
Definition body (m : Message) : list byte :=
  match m with
  | Login mPassword => PKT_LOGIN :: list_byte_of_string mPassword
  | LoginResponse mResult => [PKT_LOGIN; mResult]
  | ServerMessage mSeqNum mMsg => PKT_SERVER :: mSeqNum :: list_byte_of_string mMsg
  | ServerAck mSeqNum => [PKT_SERVER; mSeqNum]
  | Command mSeqNum mCmdStr => PKT_CMD :: mSeqNum :: list_byte_of_string mCmdStr
  | CommandResponse mSeqNum mMsg => PKT_CMD :: mSeqNum :: list_byte_of_string mMsg
  | CommandPartialResponse mNofParts mPartIdx mMsg =>
      PKT_MULTI :: mNofParts :: mPartIdx :: list_byte_of_string mMsg
  end.

Definition wire (m : Message) : list byte := frame (body m).

(** [decode] applied to what [encode] wrote into [buffer]. *)
Definition decode_encode (m : Message) (buffer : list byte) : outcome Message :=
  r <- encode m buffer ;;
  decode (take (Z.to_nat (snd r)) (fst r)).

(** The string a message carries, if any. *)
Definition text (m : Message) : string :=
  match m with
  | Login s | ServerMessage _ s | Command _ s | CommandResponse _ s
  | CommandPartialResponse _ _ s => s
  | LoginResponse _ | ServerAck _ => EmptyString
  end.

Definition has_nul (s : string) : bool :=
  existsb (Byte.eqb x00) (list_byte_of_string s).

(** The classes [decode] constructs. *)
Definition from_server (m : Message) : bool :=
  match m with
  | LoginResponse _ | CommandResponse _ _ | CommandPartialResponse _ _ _
  | ServerMessage _ _ => true
  | Login _ | Command _ _ | ServerAck _ => false
  end.

(** The [uint32_t] stored at offsets 2 to 5. *)
Definition stored_crc32 (buffer : list byte) : option Z :=
  match drop 2 buffer with
  | b2 :: b3 :: b4 :: b5 :: _ => Some (uint32_of_bytes b2 b3 b4 b5)
  | _ => None
  end.

(** The checksum of the bytes from offset 6 to the end. *)
Definition computed_crc32 (buffer : list byte) : Z :=
  uint32 (crc32 0 (drop 6 buffer)).

Definition known_type (b : byte) : bool :=
  Byte.eqb b PKT_LOGIN || Byte.eqb b PKT_CMD || Byte.eqb b PKT_SERVER.

(** The framing checks: length, magic, checksum, marker, type byte. *)
Definition framed (buffer : list byte) : Prop :=
  8 <= size buffer
  /\ take 2 buffer = [x42; x45]
  /\ stored_crc32 buffer = Some (computed_crc32 buffer)
  /\ buffer !! 6%nat = Some xff
  /\ exists ty, buffer !! 7%nat = Some ty /\ known_type ty = true.

(** The error taxonomy of the specification, and where the exception
    classes of [rconexception.hh] fall in it. No class stands for a rejected
    login, and [std::bad_alloc] is outside the taxonomy. *)
Inductive ErrorClass : Type :=
  | UsageError
  | ProtocolError
  | TransportError
  | AuthError.

Definition error_class (e : Exception) : option ErrorClass :=
  match e with
  | AppException _ => Some UsageError
  | ProtocolException _ => Some ProtocolError
  | SocketException _ => Some TransportError
  | bad_alloc => None
  end.

Definition getSeqNum (m : Message) : byte :=
  match m with
  | ServerMessage s _ | ServerAck s | Command s _ | CommandResponse s _ => s
  | _ => x00
  end.

(** Where the string of a decoded message starts in its packet. *)
Definition payload_offset (m : Message) : nat :=
  match m with
  | CommandPartialResponse _ _ _ => 10
  | _ => 9
  end.

Definition carries_text (m : Message) : bool :=
  match m with
  | CommandResponse _ _ | CommandPartialResponse _ _ _ | ServerMessage _ _ => true
  | _ => false
  end.

(** A member function that leaves the inbox as it is. *)
Definition keeps_inbox {A : Type} (m : Session A) : Prop :=
  forall w, inbox (snd (m w)) = inbox w.

(** ** Sample packets and worlds *)

(** A command reply with sequence number 5 whose payload is [a], [0x00],
    [b]. *)
Definition reply_with_nul : list byte := frame [x01; x05; x61; x00; x62].

(** A server message with sequence number 7 whose payload is [hi], [0x00],
    [!]. *)
Definition notice_with_nul : list byte := frame [x02; x07; x68; x69; x00; x21].

(** The eight-byte packets that pass the framing checks. *)
Definition bare_login : list byte := frame [PKT_LOGIN].
Definition bare_command : list byte := frame [PKT_CMD].
Definition bare_server : list byte := frame [PKT_SERVER].

(** A world in which the given datagrams arrive, in this order, and the
    given words are typed. *)
Definition world_of (datagrams : list (list byte)) (words : list string) : World :=
  mkWorld (map Datagram datagrams) [] [] words [] x00 false.

(** ** Further parts of the program *)

(** [n] calls of [getNextSeqNum] in a row: the numbers returned, in order,
    and the counter left. *)
Fixpoint allocate (n : nat) (mNextSeqNum : byte) : list byte * byte :=
  match n with
  | O => ([], mNextSeqNum)
  | S n' =>
      let (seqnum, next) := getNextSeqNum mNextSeqNum in
      let (seqnums, last) := allocate n' next in
      (seqnum :: seqnums, last)
  end.

(** An object of a message class: the member [mType] of the base class
    [Message], which [getType()] returns, and in [members] the class the
    object was created as, which selects the virtual [encode], with the
    members of that class. *)
Record Object : Type := mkObject {
  mType : MsgType;
  members : Message
}.

(** The constructors that take the members as their arguments: each passes
    the constant of its class to the constructor of [Message]. *)
Definition construct (m : Message) : Object := mkObject (getType m) m.

(** The copy constructors. That of CommandResponse delegates to the copy
    constructor of its base ServerMessage, which passes [MSG_SRV_MSG] to
    [Message]; that of Command draws a sequence number. *)
Definition copy_construct (o : Object) (mNextSeqNum : byte) : Object * byte :=
  match members o with
  | Login mPassword => (mkObject MSG_LOGIN (Login mPassword), mNextSeqNum)
  | LoginResponse mResult =>
      (mkObject MSG_LOGIN_RESP (LoginResponse mResult), mNextSeqNum)
  | ServerMessage mSeqNum mMsg =>
      (mkObject MSG_SRV_MSG (ServerMessage mSeqNum mMsg), mNextSeqNum)
  | ServerAck mSeqNum => (mkObject MSG_SRV_ACK (ServerAck mSeqNum), mNextSeqNum)
  | Command mSeqNum mCmdStr =>
      let (command, next) := Command_copy (Command mSeqNum mCmdStr) mNextSeqNum in
      (mkObject MSG_CMD command, next)
  | CommandResponse mSeqNum mMsg =>
      (mkObject MSG_SRV_MSG (CommandResponse mSeqNum mMsg), mNextSeqNum)
  | CommandPartialResponse mNofParts mPartIdx mMsg =>
      (mkObject MSG_CMD_PART_RESP (CommandPartialResponse mNofParts mPartIdx mMsg),
       mNextSeqNum)
  end.

(** What a [const char*] into the buffer of the [std::string] [s] is as a C
    string: the characters before the first [0x00] of [s]. *)
Definition c_string (s : string) : string :=
  string_of_list_byte (c_str (list_byte_of_string s)).

(** [what()] returns [exMsg.c_str()]; [std::cerr << e.what()] writes that C
    string. *)
Definition what (e : Exception) : string := c_string (exMsg e).

(** The handlers of [main] around [run]: the exit status and what is
    written to [std::cerr]. An AppException is caught first and reported by
    nothing; the other classes of [rconexception.hh] are caught as
    [Rcon::Exception] and the C string [what()] is printed, which ends at
    the first [0x00] of the message; [std::bad_alloc] is caught by neither
    handler and leaves [main]. *)
Definition main_handlers (o : outcome unit) : outcome (Z * list string) :=
  match o with
  | Ret _ => Ret (0, [])
  | Throw (AppException _) => Ret (1, [])
  | Throw bad_alloc => Throw bad_alloc
  | Throw e => Ret (1, [(what e ++ endl)%string])
  | Undefined v => Undefined v
  end.

(** [main], from the login on. *)
Definition main (interactive quiet : bool) (mPassword command : string) (w : World)
  : option (outcome (Z * list string) * World) :=
  match run interactive quiet mPassword command w with
  | Some (o, w') => Some (main_handlers o, w')
  | None => None
  end.

(** A member function that leaves [std::cout] as it is. *)
Definition keeps_stdout {A : Type} (m : Session A) : Prop :=
  forall w, stdout (snd (m w)) = stdout w.

(** ** The packet dump ([debug] of [rconmsg.cc], compiled with [DEBUG])

    What goes to [std::cerr] is kept as the lines written, each the list of
    the strings written before its [std::endl]. *)

(** [snprintf(logbuf, DEBUG_BUFFER_SIZE, "%02x ", b)]. *)
Definition hex2 (b : byte) : string :=
  ((if (byte_val b <? 16)%Z then "0" ++ hex (byte_val b) else hex (byte_val b))
   ++ " ")%string.

(** The [for] loop of [debug]: [chunk] bytes from [buffer[pos]] on. *)
Fixpoint debug_bytes (buffer : list byte) (pos : Z) (chunk : nat)
  : outcome (list string) :=
  match chunk with
  | O => Ret []
  | S chunk' =>
      b <- load buffer pos ;;
      more <- debug_bytes buffer (pos + 1) chunk' ;;
      Ret (hex2 b :: more)
  end.

(** The [do ... while (chunk != len)] of [debug], from the values of
    [chunk], [len] and [pos] at the start of a round, with a bound on the
    number of rounds. *)
Fixpoint debug_rounds (fuel : nat) (buffer : list byte) (chunk len pos : Z)
  : option (outcome (list (list string))) :=
  match fuel with
  | O => None
  | S fuel' =>
      let chunk := if len <? chunk then len else 32 in
      let len := size_sub len chunk in
      match debug_bytes buffer pos (Z.to_nat chunk) with
      | Ret line =>
          if negb (chunk =? len) then
            match debug_rounds fuel' buffer chunk len (pos + chunk) with
            | Some (Ret lines) => Some (Ret (line :: lines))
            | other => other
            end
          else Some (Ret [line])
      | Throw e => Some (Throw e)
      | Undefined v => Some (Undefined v)
      end
  end.

(** [debug(buffer, len)] for a buffer of [len] bytes. *)
Definition debug (fuel : nat) (buffer : list byte)
  : option (outcome (list (list string))) :=
  debug_rounds fuel buffer 32 (size buffer) 0.

(** How many bytes [debug] dumps of [n]. *)
Definition dumped (n : nat) : nat :=
  if (n mod 32 =? 0)%nat && (64 <=? n)%nat then (n - 32)%nat else n.

(** ** Sessions within defined behaviour *)

(** An outcome C++ gives a meaning to: a value or an exception. *)
Definition defined {A : Type} (o : outcome A) : Prop :=
  match o with
  | Undefined _ => False
  | _ => True
  end.

(** An arrival on which [decode] stays within the bytes received: any but
    an eight-byte datagram of type 1 or 2 that passes the framing checks. *)
Definition within_packet (a : Arrival) : Prop :=
  match a with
  | Datagram bytes =>
      size bytes = 8 -> framed bytes -> bytes !! 7%nat = Some PKT_LOGIN
  | _ => True
  end.

(** A command whose packet [buf] has room for. *)
Definition fits (cmdStr : string) : Prop := 9 + strsize cmdStr <= BUF_SIZE.

(** A world in which every arrival keeps [decode] within the packet and, in
    interactive mode, every word typed fits [buf]. *)
Definition harmless (interactive : bool) (w : World) : Prop :=
  Forall within_packet (inbox w)
  /\ (interactive = true -> Forall fits (stdin w)).

(** A member function that stays within defined behaviour in a harmless
    world and leaves a harmless world, with [post] of its result. *)
Definition stays_defined {A : Type} (interactive : bool) (m : Session A)
  (post : A -> Prop) : Prop :=
  forall w, harmless interactive w ->
    match m w with
    | (Ret a, w') => post a /\ harmless interactive w'
    | (Throw _, w') => harmless interactive w'
    | (Undefined _, _) => False
    end.

(** * Properties *)

(** ** Bytes and machine words *)

Lemma byte_val_range (b : byte) : 0 <= byte_val b < 256.
Proof.
  unfold byte_val. pose proof (Byte.to_N_bounded b). lia.
Qed.

Lemma to_uint8_byte_val (b : byte) : to_uint8 (byte_val b) = b.
Proof.
  unfold to_uint8. pose proof (byte_val_range b) as Hb.
  rewrite Z.mod_small by lia. unfold byte_val.
  rewrite N2Z.id, Byte.of_to_N. reflexivity.
Qed.

Lemma byte_val_to_uint8 (z : Z) : byte_val (to_uint8 z) = z mod 256.
Proof.
  unfold to_uint8, byte_val.
  assert (Hr : 0 <= z mod 256 < 256) by (apply Z.mod_pos_bound; lia).
  destruct (Byte.of_N (Z.to_N (z mod 256))) as [b|] eqn:E.
  - apply Byte.to_of_N in E. rewrite E. lia.
  - apply Byte.of_N_None_iff in E. lia.
Qed.

Lemma byte_val_inj (a b : byte) : byte_val a = byte_val b -> a = b.
Proof.
  intros H. rewrite <- (to_uint8_byte_val a), <- (to_uint8_byte_val b).
  now rewrite H.
Qed.

Lemma uint32_range (z : Z) : 0 <= uint32 z < 2 ^ 32.
Proof. unfold uint32. apply Z.mod_pos_bound. lia. Qed.

Lemma uint32_of_bytes_of_uint32 (v : Z) :
  0 <= v < 2 ^ 32 ->
  uint32_of_bytes (to_uint8 v) (to_uint8 (Z.shiftr v 8))
    (to_uint8 (Z.shiftr v 16)) (to_uint8 (Z.shiftr v 24)) = v.
Proof.
  intros Hv. unfold uint32_of_bytes.
  rewrite !byte_val_to_uint8, !Z.shiftl_mul_pow2, !Z.shiftr_div_pow2 by lia.
  change (2 ^ 8) with 256. change (2 ^ 16) with 65536.
  change (2 ^ 24) with 16777216. change (2 ^ 32) with 4294967296 in Hv.
  Z.div_mod_to_equations. lia.
Qed.

Lemma size_nonneg (buffer : list byte) : 0 <= size buffer.
Proof. unfold size. lia. Qed.

Lemma size_cons (b : byte) (buffer : list byte) :
  size (b :: buffer) = 1 + size buffer.
Proof. unfold size. simpl length. lia. Qed.

Lemma size_app (l1 l2 : list byte) : size (l1 ++ l2) = size l1 + size l2.
Proof. unfold size. rewrite length_app. lia. Qed.

Lemma size_sub_le (a b : Z) : b <= a -> size_sub a b = a - b.
Proof. intros H. unfold size_sub. destruct (Z.leb_spec b a); lia. Qed.

Lemma size_sub_gt (a b : Z) : a < b -> size_sub a b = a - b + 2 ^ 64.
Proof. intros H. unfold size_sub. destruct (Z.leb_spec b a); lia. Qed.

(** ** Buffers *)

Lemma lookup_at_size (l1 l2 : list byte) (i : Z) :
  i = size l1 ->
  (if 0 <=? i then (l1 ++ l2) !! Z.to_nat i else None) = l2 !! 0%nat.
Proof.
  intros ->. pose proof (size_nonneg l1).
  destruct (Z.leb_spec 0 (size l1)); [|lia].
  unfold size. rewrite Nat2Z.id, lookup_app_r by lia.
  now rewrite Nat.sub_diag.
Qed.

Lemma store_at_size (l1 l2 : list byte) (x v : byte) (i : Z) :
  i = size l1 ->
  store (l1 ++ x :: l2) i v = Ret (l1 ++ v :: l2).
Proof.
  intros Hi. unfold store. rewrite lookup_at_size by assumption. simpl.
  subst i. unfold size. rewrite Nat2Z.id.
  replace (length l1) with (length l1 + 0)%nat by lia.
  now rewrite insert_app_r.
Qed.

Lemma store_past_end (buffer : list byte) (i : Z) (v : byte) :
  size buffer <= i -> store buffer i v = Undefined (OutOfRange i 1).
Proof.
  intros Hi. unfold store. pose proof (size_nonneg buffer).
  destruct (Z.leb_spec 0 i); [|lia].
  rewrite lookup_ge_None_2; [reflexivity|]. unfold size in *. lia.
Qed.

Lemma load_at_size (l1 l2 : list byte) (x : byte) (i : Z) :
  i = size l1 ->
  load (l1 ++ x :: l2) i = Ret x.
Proof.
  intros Hi. unfold load. now rewrite lookup_at_size by assumption.
Qed.

Lemma load_past_end (buffer : list byte) (i : Z) :
  size buffer <= i -> load buffer i = Undefined (OutOfRange i 1).
Proof.
  intros Hi. unfold load. pose proof (size_nonneg buffer).
  destruct (Z.leb_spec 0 i); [|lia].
  rewrite lookup_ge_None_2; [reflexivity|]. unfold size in *. lia.
Qed.

(** [std::copy] overwrites exactly the bytes at its destination. *)
Lemma copy_spec (src l1 l2 l3 : list byte) (dst : Z) :
  dst = size l1 ->
  length l2 = length src ->
  copy src (l1 ++ l2 ++ l3) dst = Ret (l1 ++ src ++ l3).
Proof.
  revert l1 l2 dst.
  induction src as [|c src IH]; intros l1 l2 dst Hdst Hlen.
  - destruct l2; [reflexivity | discriminate].
  - destruct l2 as [|x l2]; [discriminate|].
    injection Hlen as Hlen. cbn [copy].
    change ((x :: l2) ++ l3) with (x :: l2 ++ l3).
    rewrite store_at_size by assumption. cbn [bind].
    replace (l1 ++ c :: l2 ++ l3) with ((l1 ++ [c]) ++ l2 ++ l3)
      by now rewrite <- app_assoc.
    rewrite IH; [now rewrite <- app_assoc | | assumption].
    rewrite size_app, size_cons. unfold size at 2. simpl. lia.
Qed.

Lemma range_spec (l1 l2 l3 : list byte) (first count : Z) :
  first = size l1 ->
  count = size l2 ->
  range (l1 ++ l2 ++ l3) first count = Ret l2.
Proof.
  intros -> ->. unfold range.
  pose proof (size_nonneg l1). pose proof (size_nonneg l2).
  pose proof (size_nonneg l3). rewrite !size_app.
  destruct (Z.leb_spec 0 (size l1)); [|lia].
  destruct (Z.leb_spec 0 (size l2)); [|lia].
  destruct (Z.leb_spec (size l1 + size l2) (size l1 + (size l2 + size l3))); [|lia].
  cbn [andb]. unfold size. rewrite !Nat2Z.id.
  rewrite drop_app_length, take_app_length. reflexivity.
Qed.

Lemma range_to_end (buffer : list byte) (first : nat) :
  (first <= length buffer)%nat ->
  range buffer (Z.of_nat first) (size buffer - Z.of_nat first) = Ret (drop first buffer).
Proof.
  intros Hle.
  rewrite <- (take_drop first buffer) at 1.
  rewrite <- (app_nil_r (drop first buffer)) at 1.
  rewrite range_spec; [reflexivity | |].
  - unfold size. rewrite length_take. lia.
  - unfold size. rewrite length_drop. lia.
Qed.

Lemma range_past_end (buffer : list byte) (first count : Z) :
  size buffer < first + count ->
  range buffer first count = Undefined (OutOfRange first count).
Proof.
  intros H. unfold range.
  destruct (Z.leb_spec (first + count) (size buffer)); [lia|].
  now rewrite andb_false_r.
Qed.

(** ** The C string of an array *)

Lemma c_str_terminated (l : list byte) : c_str (l ++ [x00]) = c_str l.
Proof.
  induction l as [|c l IH]; [reflexivity|].
  cbn [c_str app]. now rewrite IH.
Qed.

Lemma c_str_nul_free (l : list byte) :
  existsb (Byte.eqb x00) l = false -> c_str l = l.
Proof.
  induction l as [|c l IH]; [reflexivity|].
  cbn [existsb c_str]. intros H. apply orb_false_elim in H as [Hc Hl].
  destruct (Byte.eqb c x00) eqn:E.
  - apply Byte.byte_dec_bl in E. subst c. discriminate.
  - now rewrite IH.
Qed.

(** The C string is the longest prefix without a [0x00]. *)
Lemma c_str_prefix (l : list byte) :
  exists rest,
    l = c_str l ++ rest
    /\ existsb (Byte.eqb x00) (c_str l) = false
    /\ (rest = [] \/ exists rest', rest = x00 :: rest').
Proof.
  induction l as [|c l (rest & Hl & Hfree & Hrest)].
  - exists []. cbn. auto.
  - cbn [c_str]. destruct (Byte.eqb c x00) eqn:E.
    + apply Byte.byte_dec_bl in E. subst c. exists (x00 :: l). cbn. eauto.
    + exists rest. cbn [existsb app]. rewrite <- Hl. repeat split; auto.
      rewrite Hfree, orb_false_r.
      destruct (Byte.eqb x00 c) eqn:E'; [|reflexivity].
      apply Byte.byte_dec_bl in E'. subst c. discriminate.
Qed.

Lemma extractStr_to_end (buffer : list byte) (first : nat) :
  (first <= length buffer)%nat ->
  extractStr buffer (Z.of_nat first) (size buffer - Z.of_nat first)
  = (_ <- new_char (size_add (size (drop first buffer)) 1) ;;
     Ret (string_of_list_byte (c_str (drop first buffer)))).
Proof.
  intros H. unfold extractStr.
  replace (size (drop first buffer)) with (size buffer - Z.of_nat first)
    by (unfold size; rewrite length_drop; lia).
  destruct (new_char _) as [[]| |]; try reflexivity.
  cbn [bind]. rewrite range_to_end by assumption.
  cbn [bind]. now rewrite c_str_terminated.
Qed.

Lemma new_char_fits (l : list byte) :
  size l < PTRDIFF_MAX -> new_char (size_add (size l) 1) = Ret tt.
Proof.
  intros H. pose proof (size_nonneg l). unfold new_char, size_add, PTRDIFF_MAX in *.
  destruct (Z.ltb_spec (size l + 1) (2 ^ 64)); [|lia].
  destruct (Z.ltb_spec (2 ^ 63 - 1) (size l + 1)); [lia | reflexivity].
Qed.

(** ** Encoding writes the frame of the message *)

Lemma size_frame (payload : list byte) : size (frame payload) = 7 + size payload.
Proof. unfold frame, size. cbn [length app bytes_of_uint32]. lia. Qed.

Lemma strsize_bytes (s : string) : size (list_byte_of_string s) = strsize s.
Proof.
  unfold size, strsize, list_byte_of_string. rewrite length_map. f_equal.
  induction s as [|a s IH]; [reflexivity|]. cbn. now rewrite IH.
Qed.

Lemma encodeHeader_spec (b0 b1 b2 b3 b4 b5 b6 : byte) (rest : list byte) :
  encodeHeader (b0 :: b1 :: b2 :: b3 :: b4 :: b5 :: b6 :: rest)
  = Ret (x42 :: x45 :: x00 :: x00 :: x00 :: b5 :: xff :: rest).
Proof. reflexivity. Qed.

Lemma encodeHeader_short (buffer : list byte) :
  size buffer < 7 -> exists v, encodeHeader buffer = Undefined v.
Proof.
  intros H.
  do 7 (destruct buffer as [|? buffer]; [eexists; reflexivity|]).
  rewrite !size_cons in H. pose proof (size_nonneg buffer). lia.
Qed.

Lemma calculateCrc_spec (c0 c1 c2 c3 : byte) (payload rest : list byte) (length : Z) :
  length = size (frame payload) ->
  calculateCrc (x42 :: x45 :: c0 :: c1 :: c2 :: c3 :: xff :: payload ++ rest) length
  = Ret (frame payload ++ rest).
Proof.
  intros ->. unfold calculateCrc.
  rewrite size_frame, size_sub_le by (pose proof (size_nonneg payload); lia).
  change (x42 :: x45 :: c0 :: c1 :: c2 :: c3 :: xff :: payload ++ rest)
    with ([x42; x45; c0; c1; c2; c3] ++ (xff :: payload) ++ rest).
  rewrite range_spec; [| reflexivity | rewrite size_cons; lia].
  cbn [bind]. unfold store32.
  change ([x42; x45; c0; c1; c2; c3] ++ (xff :: payload) ++ rest)
    with ([x42; x45] ++ [c0; c1; c2; c3] ++ (xff :: payload ++ rest)).
  rewrite copy_spec by reflexivity.
  unfold frame. now rewrite <- !app_assoc.
Qed.

Lemma crc_then_return (c0 c1 c2 c3 : byte) (payload rest : list byte) (len : Z) :
  len = size (frame payload) ->
  (buffer <- calculateCrc
               (x42 :: x45 :: c0 :: c1 :: c2 :: c3 :: xff :: payload ++ rest) len ;;
   Ret (buffer, len))
  = Ret (frame payload ++ rest, size (frame payload)).
Proof.
  intros ->. now rewrite calculateCrc_spec.
Qed.

(** The common end of the [encode] functions that carry a string: the
    string is copied behind the fixed fields, then the checksum is stored. *)
Lemma copy_then_crc (c0 c1 c2 c3 : byte) (fixed txt l2 l3 : list byte) (dst len : Z) :
  dst = 7 + size fixed ->
  len = dst + size txt ->
  length l2 = length txt ->
  (buffer <- copy txt (x42 :: x45 :: c0 :: c1 :: c2 :: c3 :: xff :: fixed ++ l2 ++ l3) dst ;;
   buffer <- calculateCrc buffer len ;;
   Ret (buffer, len))
  = Ret (frame (fixed ++ txt) ++ l3, size (frame (fixed ++ txt))).
Proof.
  intros -> -> Hl2.
  change (x42 :: x45 :: c0 :: c1 :: c2 :: c3 :: xff :: fixed ++ l2 ++ l3)
    with ([x42; x45; c0; c1; c2; c3; xff] ++ fixed ++ l2 ++ l3).
  rewrite (app_assoc [x42; x45; c0; c1; c2; c3; xff] fixed).
  rewrite copy_spec; [| rewrite size_app; reflexivity | assumption].
  cbn [bind]. rewrite <- app_assoc. cbn [app].
  rewrite (app_assoc fixed txt l3).
  rewrite calculateCrc_spec by (rewrite size_frame, size_app; lia).
  cbn [bind]. rewrite size_frame, size_app. do 2 f_equal. lia.
Qed.

Lemma split_room (n : nat) (buffer : list byte) :
  (n <= length buffer)%nat ->
  exists l2 l3, buffer = l2 ++ l3 /\ length l2 = n.
Proof.
  intros H. exists (take n buffer), (drop n buffer).
  rewrite take_drop, length_take. split; [reflexivity | lia].
Qed.

Lemma drop_behind (pre l1 l3 : list byte) :
  length pre = length l1 -> drop (length l1) (pre ++ l3) = l3.
Proof. intros <-. apply drop_app_length. Qed.

Lemma length_frame (payload : list byte) :
  length (frame payload) = (7 + length payload)%nat.
Proof. reflexivity. Qed.

Tactic Notation "explode_buffer" ident(buffer) hyp(H) integer(n) :=
  do n (destruct buffer as [|? buffer];
        [exfalso; rewrite ?size_frame, ?size_cons in H;
         pose proof (size_nonneg []); unfold size in *; cbn [length] in H; lia|]).

Ltac run_store :=
  match goal with
  | |- context [store ?l ?i ?v] =>
      let r := eval cbv in (store l i v) in
      change (store l i v) with r; cbn [bind]
  end.

Ltac room_for txt buffer H :=
  let l2 := fresh "l2" in
  let l3 := fresh "l3" in
  let Hl2 := fresh "Hl2" in
  destruct (split_room (length txt) buffer) as (l2 & l3 & -> & Hl2);
  [ rewrite size_frame, !size_cons in H; unfold size in *;
    rewrite ?length_app in H; cbn [length] in H; lia | ].

Ltac finish_encode old :=
  match goal with
  | l3 : list byte |- _ =>
      exists old, l3; split; [reflexivity|];
      split; [rewrite length_frame; cbn [length]; rewrite ?length_app; cbn [length]; lia|]
  end.

(** [encode] returns the length of the frame and leaves the frame in the
    first bytes of the buffer, the bytes behind it untouched. *)
Lemma encode_spec (m : Message) (buffer : list byte) :
  size (wire m) <= size buffer ->
  exists old rest,
    buffer = old ++ rest
    /\ length old = length (wire m)
    /\ encode m buffer = Ret (wire m ++ rest, size (wire m)).
Proof.
  intros Hroom. unfold wire in *.
  destruct m as [pw | r | s t | s | s t | s t | n i t]; cbn [encode body] in *.
  - unfold Login_encode. explode_buffer buffer Hroom 8.
    rewrite encodeHeader_spec. cbn [bind]. run_store.
    room_for (list_byte_of_string pw) buffer Hroom. cbv zeta.
    rewrite <- strsize_bytes.
    finish_encode (b :: b0 :: b1 :: b2 :: b3 :: b4 :: b5 :: b6 :: l2).
    apply (copy_then_crc _ _ _ _ [x00]); reflexivity || assumption.
  - unfold LoginResponse_encode. explode_buffer buffer Hroom 9.
    rewrite encodeHeader_spec. cbn [bind]. do 2 run_store. cbv zeta.
    exists [b; b0; b1; b2; b3; b4; b5; b6; b7], buffer.
    split; [reflexivity|]. split; [reflexivity|].
    apply (crc_then_return _ _ _ _ [x00; r]). reflexivity.
  - unfold ServerMessage_encode. explode_buffer buffer Hroom 9.
    rewrite encodeHeader_spec. cbn [bind]. do 2 run_store.
    room_for (list_byte_of_string t) buffer Hroom. cbv zeta.
    rewrite <- strsize_bytes.
    finish_encode (b :: b0 :: b1 :: b2 :: b3 :: b4 :: b5 :: b6 :: b7 :: l2).
    apply (copy_then_crc _ _ _ _ [x02; s]); reflexivity || assumption.
  - unfold ServerAck_encode. explode_buffer buffer Hroom 9.
    rewrite encodeHeader_spec. cbn [bind]. do 2 run_store. cbv zeta.
    exists [b; b0; b1; b2; b3; b4; b5; b6; b7], buffer.
    split; [reflexivity|]. split; [reflexivity|].
    apply (crc_then_return _ _ _ _ [x02; s]). reflexivity.
  - unfold Command_encode. explode_buffer buffer Hroom 9.
    rewrite encodeHeader_spec. cbn [bind]. do 2 run_store.
    room_for (list_byte_of_string t) buffer Hroom. cbv zeta.
    rewrite <- strsize_bytes.
    finish_encode (b :: b0 :: b1 :: b2 :: b3 :: b4 :: b5 :: b6 :: b7 :: l2).
    apply (copy_then_crc _ _ _ _ [x01; s]); reflexivity || assumption.
  - unfold CommandResponse_encode. explode_buffer buffer Hroom 9.
    rewrite encodeHeader_spec. cbn [bind]. do 2 run_store.
    room_for (list_byte_of_string t) buffer Hroom. cbv zeta.
    rewrite <- strsize_bytes.
    finish_encode (b :: b0 :: b1 :: b2 :: b3 :: b4 :: b5 :: b6 :: b7 :: l2).
    apply (copy_then_crc _ _ _ _ [x01; s]); reflexivity || assumption.
  - unfold CommandPartialResponse_encode. explode_buffer buffer Hroom 10.
    rewrite encodeHeader_spec. cbn [bind]. do 3 run_store.
    room_for (list_byte_of_string t) buffer Hroom. cbv zeta.
    rewrite <- strsize_bytes.
    finish_encode (b :: b0 :: b1 :: b2 :: b3 :: b4 :: b5 :: b6 :: b7 :: b8 :: l2).
    apply (copy_then_crc _ _ _ _ [x00; n; i]); reflexivity || assumption.
Qed.

(** ** Decoding, case by case *)

Lemma size_lt_8 (buffer : list byte) :
  size buffer < 8 ->
  decode buffer = Throw (ProtocolException "Empty packet received!").
Proof.
  intros H. unfold decode. destruct (Z.ltb_spec (size buffer) 8); [reflexivity | lia].
Qed.

Lemma size_ge_8 (buffer : list byte) :
  8 <= size buffer ->
  exists b0 b1 b2 b3 b4 b5 b6 b7 rest,
    buffer = b0 :: b1 :: b2 :: b3 :: b4 :: b5 :: b6 :: b7 :: rest.
Proof.
  intros H.
  do 8 (destruct buffer as [|? buffer];
        [exfalso; rewrite ?size_cons in H; unfold size in H; cbn [length] in H; lia|]).
  repeat eexists.
Qed.

(** What [decode] does with a packet of at least eight bytes, in terms of
    those bytes and the ones behind them. *)
Lemma decode_cons8 (b0 b1 b2 b3 b4 b5 b6 b7 : byte) (rest : list byte) :
  decode (b0 :: b1 :: b2 :: b3 :: b4 :: b5 :: b6 :: b7 :: rest) =
  if negb (Byte.eqb b0 x42) || negb (Byte.eqb b1 x45) then
    Throw (ProtocolException "Key bytes 'B','E' were not matched in packet header!")
  else if negb (uint32 (crc32 0 (b6 :: b7 :: rest)) =? uint32_of_bytes b2 b3 b4 b5) then
    Throw (ProtocolException
             ("CRC32 check failed against "
              ++ hex (uint32 (crc32 0 (b6 :: b7 :: rest)))
              ++ ", packet is corrupted!" ++ endl))
  else if negb (Byte.eqb b6 xff) then
    Throw (ProtocolException
             ("Unexpected byte " ++ chr b6 ++ " received at position 6!"))
  else if Byte.eqb b7 PKT_LOGIN then
    match rest with
    | [] => Throw bad_alloc
    | [b8] => Ret (LoginResponse b8)
    | b8 :: b9 :: payload =>
        _ <- new_char (size_add (size payload) 1) ;;
        Ret (CommandPartialResponse b8 b9 (string_of_list_byte (c_str payload)))
    end
  else if Byte.eqb b7 PKT_CMD then
    match rest with
    | [] => Undefined (OutOfRange 9 (2 ^ 64 - 1))
    | b8 :: payload =>
        _ <- new_char (size_add (size payload) 1) ;;
        Ret (CommandResponse b8 (string_of_list_byte (c_str payload)))
    end
  else if Byte.eqb b7 PKT_SERVER then
    match rest with
    | [] => Undefined (OutOfRange 9 (2 ^ 64 - 1))
    | b8 :: payload =>
        _ <- new_char (size_add (size payload) 1) ;;
        Ret (ServerMessage b8 (string_of_list_byte (c_str payload)))
    end
  else
    Throw (ProtocolException ("Unknown message type " ++ chr b7 ++ " received!")).
Proof.
  set (buffer := b0 :: b1 :: b2 :: b3 :: b4 :: b5 :: b6 :: b7 :: rest).
  assert (Hsize : size buffer = 8 + size rest)
    by (unfold buffer; rewrite !size_cons; lia).
  pose proof (size_nonneg rest) as Hrest.
  unfold decode. rewrite Hsize.
  destruct (Z.ltb_spec (8 + size rest) 8); [lia|].
  change (load buffer 0) with (Ret b0). change (load buffer 1) with (Ret b1).
  cbn [bind].
  destruct (negb (Byte.eqb b0 x42) || negb (Byte.eqb b1 x45)); [reflexivity|].
  rewrite size_sub_le by lia.
  replace (8 + size rest - 6) with (size buffer - Z.of_nat 6) by lia.
  change 6 with (Z.of_nat 6) at 1.
  rewrite range_to_end by (unfold buffer; cbn [length]; lia).
  change (drop 6 buffer) with (b6 :: b7 :: rest). cbn [bind].
  change (load32 buffer 2) with (Ret (uint32_of_bytes b2 b3 b4 b5)). cbn [bind].
  destruct (negb (uint32 (crc32 0 (b6 :: b7 :: rest)) =? uint32_of_bytes b2 b3 b4 b5));
    [reflexivity|].
  change (load buffer 6) with (Ret b6). cbn [bind].
  destruct (negb (Byte.eqb b6 xff)); [reflexivity|].
  change (load buffer 7) with (Ret b7). cbn [bind].
  assert (Hstr : forall first : nat,
             (first <= length buffer)%nat ->
             extractStr buffer (Z.of_nat first) (size_sub (8 + size rest) (Z.of_nat first))
             = (_ <- new_char (size_add (size (drop first buffer)) 1) ;;
                Ret (string_of_list_byte (c_str (drop first buffer))))).
  { intros first Hf. rewrite size_sub_le.
    - rewrite <- Hsize. now apply extractStr_to_end.
    - rewrite <- Hsize. unfold size. lia. }
  destruct (Byte.eqb b7 PKT_LOGIN).
  { destruct rest as [|b8 [|b9 payload]].
    - reflexivity.
    - reflexivity.
    - destruct (Z.eqb_spec (8 + size (b8 :: b9 :: payload)) 9) as [E|_].
      { rewrite !size_cons in E. pose proof (size_nonneg payload). lia. }
      change 10 with (Z.of_nat 10).
      rewrite Hstr by (unfold buffer; cbn [length]; lia).
      change (drop 10 buffer) with payload.
      now destruct (new_char _) as [[]| |]. }
  destruct (Byte.eqb b7 PKT_CMD).
  { destruct rest as [|b8 payload].
    - unfold extractStr. change (new_char _) with (Ret tt). cbn [bind].
      rewrite range_past_end; [reflexivity|].
      rewrite Hsize. change (size []) with 0. rewrite size_sub_gt; lia.
    - change 9 with (Z.of_nat 9).
      rewrite Hstr by (unfold buffer; cbn [length]; lia).
      change (drop 9 buffer) with payload.
      now destruct (new_char _) as [[]| |]. }
  destruct (Byte.eqb b7 PKT_SERVER).
  { destruct rest as [|b8 payload].
    - unfold extractStr. change (new_char _) with (Ret tt). cbn [bind].
      rewrite range_past_end; [reflexivity|].
      rewrite Hsize. change (size []) with 0. rewrite size_sub_gt; lia.
    - change 9 with (Z.of_nat 9).
      rewrite Hstr by (unfold buffer; cbn [length]; lia).
      change (drop 9 buffer) with payload.
      now destruct (new_char _) as [[]| |]. }
  reflexivity.
Qed.

(** A frame passes the checks of [decode]; what is left is the dispatch on
    its type byte and its length. *)
Lemma decode_frame (ty : byte) (rest : list byte) :
  decode (frame (ty :: rest)) =
  if Byte.eqb ty PKT_LOGIN then
    match rest with
    | [] => Throw bad_alloc
    | [b8] => Ret (LoginResponse b8)
    | b8 :: b9 :: payload =>
        _ <- new_char (size_add (size payload) 1) ;;
        Ret (CommandPartialResponse b8 b9 (string_of_list_byte (c_str payload)))
    end
  else if Byte.eqb ty PKT_CMD then
    match rest with
    | [] => Undefined (OutOfRange 9 (2 ^ 64 - 1))
    | b8 :: payload =>
        _ <- new_char (size_add (size payload) 1) ;;
        Ret (CommandResponse b8 (string_of_list_byte (c_str payload)))
    end
  else if Byte.eqb ty PKT_SERVER then
    match rest with
    | [] => Undefined (OutOfRange 9 (2 ^ 64 - 1))
    | b8 :: payload =>
        _ <- new_char (size_add (size payload) 1) ;;
        Ret (ServerMessage b8 (string_of_list_byte (c_str payload)))
    end
  else
    Throw (ProtocolException ("Unknown message type " ++ chr ty ++ " received!")).
Proof.
  unfold frame. cbn [app bytes_of_uint32]. rewrite decode_cons8.
  rewrite uint32_of_bytes_of_uint32 by apply uint32_range.
  rewrite Z.eqb_refl. reflexivity.
Qed.

Lemma text_of_bytes (s : string) :
  has_nul s = false ->
  string_of_list_byte (c_str (list_byte_of_string s)) = s.
Proof.
  intros H. rewrite c_str_nul_free by exact H.
  apply string_of_list_byte_of_string.
Qed.

(** What the frame of each message class decodes to. *)
Lemma decode_wire (m : Message) :
  has_nul (text m) = false ->
  strsize (text m) < PTRDIFF_MAX ->
  decode (wire m) =
  match m with
  | Login mPassword =>
      match list_byte_of_string mPassword with
      | [] => Throw bad_alloc
      | [b8] => Ret (LoginResponse b8)
      | b8 :: b9 :: payload =>
          Ret (CommandPartialResponse b8 b9 (string_of_list_byte payload))
      end
  | LoginResponse _ | CommandResponse _ _ | CommandPartialResponse _ _ _
  | ServerMessage _ _ => Ret m
  | Command mSeqNum mCmdStr => Ret (CommandResponse mSeqNum mCmdStr)
  | ServerAck mSeqNum => Ret (ServerMessage mSeqNum EmptyString)
  end.
Proof.
  intros Hnul Hsize. unfold wire. rewrite <- strsize_bytes in Hsize.
  destruct m as [pw | r | s t | s | s t | s t | n i t];
    cbn [body text] in *; rewrite decode_frame;
    cbn [PKT_LOGIN PKT_MULTI PKT_CMD PKT_SERVER Byte.eqb];
    try (rewrite new_char_fits by exact Hsize; cbn [bind]);
    try (rewrite text_of_bytes by exact Hnul); try reflexivity.
  unfold has_nul in Hnul.
  destruct (list_byte_of_string pw) as [|b8 [|b9 payload]]; try reflexivity.
  cbn [existsb] in Hnul. apply orb_false_elim in Hnul as [_ Hnul].
  apply orb_false_elim in Hnul as [_ Hnul].
  rewrite !size_cons in Hsize.
  rewrite new_char_fits by lia. cbn [bind].
  now rewrite c_str_nul_free.
Qed.

Lemma take_frame (payload rest : list byte) :
  take (Z.to_nat (size (frame payload))) (frame payload ++ rest) = frame payload.
Proof.
  unfold size. rewrite Nat2Z.id. apply take_app_length.
Qed.

Lemma decode_encode_wire (m : Message) (buffer : list byte) :
  size (wire m) <= size buffer ->
  decode_encode m buffer = decode (wire m).
Proof.
  intros Hroom. unfold decode_encode.
  destruct (encode_spec m buffer Hroom) as (old & rest & _ & _ & ->).
  cbn [bind fst snd]. unfold wire. now rewrite take_frame.
Qed.

(** ** The rejections of [decode] *)

(** [decode] throws nothing but [ProtocolException] and, from [new],
    [std::bad_alloc]. *)
Lemma decode_throws_protocol (buffer : list byte) (e : Exception) :
  decode buffer = Throw e -> e = bad_alloc \/ exists msg, e = ProtocolException msg.
Proof.
  intros H. destruct (Z.lt_ge_cases (size buffer) 8) as [Hlt|Hge].
  - rewrite size_lt_8 in H by assumption. injection H as <-. eauto.
  - destruct (size_ge_8 buffer Hge)
      as (b0 & b1 & b2 & b3 & b4 & b5 & b6 & b7 & rest & ->).
    rewrite decode_cons8 in H. unfold new_char in H.
    repeat match type of H with
           | context [if ?c then _ else _] => destruct c; cbn [bind] in H
           | Throw _ = Throw _ => injection H as <-; eauto
           | match ?l with [] => _ | _ :: _ => _ end = _ => destruct l
           | _ => discriminate H
           end.
Qed.

(** [decode] throws exactly when a framing check fails: the packet is
    shorter than eight bytes, or the magic, the checksum, the marker or the
    type byte is not the expected one. *)
Lemma decode_throws_iff (buffer : list byte) :
  (exists msg, decode buffer = Throw (ProtocolException msg))
  <-> (size buffer < 8
       \/ take 2 buffer <> [x42; x45]
       \/ stored_crc32 buffer <> Some (computed_crc32 buffer)
       \/ buffer !! 6%nat <> Some xff
       \/ forall ty, buffer !! 7%nat = Some ty -> known_type ty = false).
Proof.
  destruct (Z.lt_ge_cases (size buffer) 8) as [Hlt|Hge].
  { rewrite size_lt_8 by assumption. split; eauto. }
  destruct (size_ge_8 buffer Hge)
    as (b0 & b1 & b2 & b3 & b4 & b5 & b6 & b7 & rest & ->).
  rewrite decode_cons8. unfold stored_crc32, computed_crc32, known_type.
  cbn [take drop lookup list_lookup].
  destruct (Byte.eqb b0 x42) eqn:E0; cycle 1.
  { apply Byte.eqb_false in E0. split; [|eauto]. intros _. right; left. congruence. }
  destruct (Byte.eqb b1 x45) eqn:E1; cycle 1.
  { apply Byte.eqb_false in E1. split; [|eauto]. intros _. right; left. congruence. }
  apply Byte.byte_dec_bl in E0, E1. subst b0 b1. cbn [negb orb].
  destruct (Z.eqb_spec (uint32 (crc32 0 (b6 :: b7 :: rest))) (uint32_of_bytes b2 b3 b4 b5))
    as [Ecrc|Ecrc]; cycle 1.
  { split; [|eauto]. intros _. right; right; left. congruence. }
  cbn [negb].
  destruct (Byte.eqb b6 xff) eqn:E6; cycle 1.
  { apply Byte.eqb_false in E6. split; [|eauto]. intros _.
    right; right; right; left. congruence. }
  apply Byte.byte_dec_bl in E6. subst b6. cbn [negb].
  assert (Hno : forall P : Prop,
             (size (x42 :: x45 :: b2 :: b3 :: b4 :: b5 :: xff :: b7 :: rest) < 8
              \/ [x42; x45] <> [x42; x45]
              \/ Some (uint32_of_bytes b2 b3 b4 b5)
                 <> Some (uint32 (crc32 0 (xff :: b7 :: rest)))
              \/ Some xff <> Some xff
              \/ P) -> P).
  { intros P [H|[H|[H|[H|H]]]]; try congruence; lia. }
  destruct (Byte.eqb b7 PKT_LOGIN) eqn:T0.
  { split.
    - intros [msg H]. unfold new_char in H.
      destruct rest as [|? [|? ?]]; try discriminate H.
      destruct (_ <? _); discriminate H.
    - intros H. apply Hno in H. specialize (H b7 eq_refl).
      rewrite ?T0, ?T1, ?T2 in H. discriminate H. }
  destruct (Byte.eqb b7 PKT_CMD) eqn:T1.
  { split.
    - intros [msg H]. unfold new_char in H.
      destruct rest; try discriminate H.
      destruct (_ <? _); discriminate H.
    - intros H. apply Hno in H. specialize (H b7 eq_refl).
      rewrite ?T0, ?T1, ?T2 in H. discriminate H. }
  destruct (Byte.eqb b7 PKT_SERVER) eqn:T2.
  { split.
    - intros [msg H]. unfold new_char in H.
      destruct rest; try discriminate H.
      destruct (_ <? _); discriminate H.
    - intros H. apply Hno in H. specialize (H b7 eq_refl).
      rewrite ?T0, ?T1, ?T2 in H. discriminate H. }
  split; [|eauto]. intros _. do 4 right. intros ty [= <-]. now rewrite T0, T1, T2.
Qed.

(** ** The packets that pass the framing checks are the frames *)

Lemma bytes_of_uint32_of_bytes (c0 c1 c2 c3 : byte) :
  bytes_of_uint32 (uint32_of_bytes c0 c1 c2 c3) = [c0; c1; c2; c3].
Proof.
  pose proof (byte_val_range c0). pose proof (byte_val_range c1).
  pose proof (byte_val_range c2). pose proof (byte_val_range c3).
  unfold bytes_of_uint32, uint32_of_bytes.
  rewrite !Z.shiftl_mul_pow2, !Z.shiftr_div_pow2 by lia.
  change (2 ^ 8) with 256. change (2 ^ 16) with 65536.
  change (2 ^ 24) with 16777216.
  repeat f_equal; apply byte_val_inj; rewrite byte_val_to_uint8;
    Z.div_mod_to_equations; lia.
Qed.

Lemma known_type_inv (ty : byte) :
  known_type ty = true -> ty = PKT_LOGIN \/ ty = PKT_CMD \/ ty = PKT_SERVER.
Proof.
  unfold known_type. intros H.
  apply orb_prop in H as [H|H]; [apply orb_prop in H as [H|H]|];
    apply Byte.byte_dec_bl in H; auto.
Qed.

Lemma framed_frame (ty : byte) (rest : list byte) :
  known_type ty = true -> framed (frame (ty :: rest)).
Proof.
  intros Hty. unfold framed. rewrite size_frame, size_cons.
  pose proof (size_nonneg rest).
  repeat split; [lia | | eauto].
  unfold stored_crc32, computed_crc32, frame. cbn [app bytes_of_uint32 drop].
  now rewrite uint32_of_bytes_of_uint32 by apply uint32_range.
Qed.

Lemma framed_inv (buffer : list byte) :
  framed buffer ->
  exists ty rest, known_type ty = true /\ buffer = frame (ty :: rest).
Proof.
  intros (Hsize & Hmagic & Hcrc & Hmarker & ty & Hty & Hknown).
  destruct (size_ge_8 buffer Hsize)
    as (b0 & b1 & b2 & b3 & b4 & b5 & b6 & b7 & rest & ->).
  unfold stored_crc32, computed_crc32 in Hcrc.
  cbn [take drop lookup list_lookup] in *.
  injection Hmagic as -> ->. injection Hmarker as ->. injection Hty as ->.
  injection Hcrc as Hcrc.
  exists ty, rest. split; [assumption|].
  unfold frame. rewrite <- Hcrc, bytes_of_uint32_of_bytes. reflexivity.
Qed.

(** ** The codec: round trip, dispatch, rejections *)

Lemma text_within_wire (m : Message) : strsize (text m) < size (wire m).
Proof.
  unfold wire. rewrite size_frame, <- strsize_bytes.
  destruct m as [s | r | q s | q | q s | q s | n i s]; cbn [body text];
    rewrite !size_cons; try change (list_byte_of_string "") with (@nil byte);
    try change (size []) with 0;
    try pose proof (size_nonneg (list_byte_of_string s)); lia.
Qed.

(** C1, as the code has it: for a message [m] of one of the four classes
    that [decode] constructs (LoginResponse, CommandResponse,
    CommandPartialResponse, ServerMessage) whose string holds no [0x00]
    byte, decoding the bytes that [encode] wrote into a buffer with room for
    them yields [m] itself, class and fields. *)
Theorem decode_encode_from_server (m : Message) (buffer : list byte) :
  from_server m = true ->
  has_nul (text m) = false ->
  size (wire m) <= size buffer ->
  size buffer <= PTRDIFF_MAX ->
  decode_encode m buffer = Ret m.
Proof.
  intros Hfrom Hnul Hroom Hmem.
  rewrite decode_encode_wire by assumption.
  rewrite decode_wire; [destruct m; try discriminate Hfrom; reflexivity | assumption |].
  pose proof (text_within_wire m). lia.
Qed.

Lemma decode_encode_from_server_witness :
  let m := CommandPartialResponse x02 x00 "players" in
  let buffer := replicate 2048 x00 in
  from_server m = true
  /\ has_nul (text m) = false
  /\ size (wire m) <= size buffer
  /\ size buffer <= PTRDIFF_MAX
  /\ decode_encode m buffer = Ret m.
Proof.
  intros m buffer.
  assert (H1 : from_server m = true) by reflexivity.
  assert (H2 : has_nul (text m) = false) by reflexivity.
  assert (H3 : size (wire m) <= size buffer) by (vm_compute; discriminate).
  assert (H4 : size buffer <= PTRDIFF_MAX) by (vm_compute; discriminate).
  split; [exact H1|]. split; [exact H2|]. split; [exact H3|]. split; [exact H4|].
  exact (decode_encode_from_server m buffer H1 H2 H3 H4).
Defined.

(** C1 fails for a Login: the bytes of [Login("secret")] decode to the
    CommandPartialResponse with [s] and [e] as its two numbers and [cret] as
    its text. *)
Lemma decode_encode_login_secret :
  decode_encode (Login "secret") (replicate 2048 x00)
  = Ret (CommandPartialResponse x73 x65 "cret")
  /\ decode_encode (Login "secret") (replicate 2048 x00) <> Ret (Login "secret").
Proof.
  assert (H : decode_encode (Login "secret") (replicate 2048 x00)
              = Ret (CommandPartialResponse x73 x65 "cret"))
    by (vm_compute; reflexivity).
  split; [exact H|]. rewrite H. discriminate.
Qed.

(** The frames of the client's messages decode to the server's classes:
    those of a Command or a ServerAck to the CommandResponse or the
    ServerMessage with the same fields, that of a Login never to a Login. *)
Lemma decode_encode_from_client (m : Message) (buffer : list byte) :
  from_server m = false ->
  has_nul (text m) = false ->
  size (wire m) <= size buffer ->
  size buffer <= PTRDIFF_MAX ->
  match m with
  | Command mSeqNum mCmdStr =>
      decode_encode m buffer = Ret (CommandResponse mSeqNum mCmdStr)
  | ServerAck mSeqNum =>
      decode_encode m buffer = Ret (ServerMessage mSeqNum EmptyString)
  | _ => decode_encode m buffer <> Ret m
  end.
Proof.
  intros Hfrom Hnul Hroom Hmem.
  rewrite decode_encode_wire by assumption.
  rewrite decode_wire; [| assumption |].
  - destruct m; try discriminate Hfrom; try reflexivity.
    destruct (list_byte_of_string mPassword) as [|? [|? ?]]; discriminate.
  - pose proof (text_within_wire m). lia.
Qed.

(** The dispatch of [decode] on a packet of at least nine bytes that passes
    the framing checks: type 0 with length 9 yields the LoginResponse of
    byte 8; type 0 with a greater length the CommandPartialResponse of bytes
    8 and 9; type 1 the CommandResponse and type 2 the ServerMessage of
    byte 8. The string of the message is what [extractStr] makes of the
    bytes from offset 10, respectively 9: it loses them from the first
    [0x00] on. *)
Lemma decode_dispatch (buffer : list byte) (ty : byte) :
  framed buffer ->
  9 <= size buffer <= PTRDIFF_MAX ->
  buffer !! 7%nat = Some ty ->
  let b8 := nth 8 buffer x00 in
  let b9 := nth 9 buffer x00 in
  (ty = PKT_LOGIN -> size buffer = 9 -> decode buffer = Ret (LoginResponse b8))
  /\ (ty = PKT_LOGIN -> 9 < size buffer ->
      decode buffer
      = Ret (CommandPartialResponse b8 b9
               (string_of_list_byte (c_str (drop 10 buffer)))))
  /\ (ty = PKT_CMD ->
      decode buffer
      = Ret (CommandResponse b8 (string_of_list_byte (c_str (drop 9 buffer)))))
  /\ (ty = PKT_SERVER ->
      decode buffer
      = Ret (ServerMessage b8 (string_of_list_byte (c_str (drop 9 buffer))))).
Proof.
  intros Hframed [Hmin Hmax] Hty.
  destruct (framed_inv buffer Hframed) as (ty' & rest & _ & ->).
  injection Hty as ->.
  rewrite size_frame, size_cons in Hmin, Hmax.
  destruct rest as [|b8 rest]; [change (size []) with 0 in Hmin; lia|].
  rewrite size_cons in Hmax. pose proof (size_nonneg rest) as Hrest.
  cbn zeta. rewrite decode_frame.
  change (nth 8 (frame (ty :: b8 :: rest)) x00) with b8.
  change (drop 9 (frame (ty :: b8 :: rest))) with rest.
  repeat split; intros ->; cbn [Byte.eqb PKT_LOGIN PKT_CMD PKT_SERVER].
  - rewrite size_frame, !size_cons. intros Hlen.
    destruct rest; [reflexivity|]. rewrite size_cons in Hlen.
    pose proof (size_nonneg rest). lia.
  - rewrite size_frame, !size_cons. intros Hlen.
    destruct rest as [|b9 payload]; [change (size []) with 0 in Hlen; lia|].
    rewrite size_cons in Hmax. rewrite new_char_fits by lia. reflexivity.
  - rewrite new_char_fits by lia. reflexivity.
  - rewrite new_char_fits by lia. reflexivity.
Qed.

(** C2: the twelve-byte packet [42 45 8e 72 11 b5 ff 01 05 61 00 62]
    passes the framing checks with type byte 1, and its bytes from offset 9
    on are [61 00 62]. [decode] returns the CommandResponse with sequence
    number 5 whose text is [a] alone, not those three bytes: [extractStr]
    copies the three bytes and then builds the string from the C string,
    which ends at the [0x00]. [encode] goes by the size of the string: the
    packet is what it writes for the CommandResponse with the three-byte
    text. *)
Theorem decode_reply_with_nul :
  let mMsg := string_of_list_byte [x61; x00; x62] in
  reply_with_nul
  = [x42; x45; x8e; x72; x11; xb5; xff; x01; x05; x61; x00; x62]
  /\ framed reply_with_nul
  /\ reply_with_nul !! 7%nat = Some PKT_CMD
  /\ drop 9 reply_with_nul = [x61; x00; x62]
  /\ decode reply_with_nul = Ret (CommandResponse x05 "a")
  /\ decode reply_with_nul
     <> Ret (CommandResponse x05 (string_of_list_byte (drop 9 reply_with_nul)))
  /\ extractStr reply_with_nul 9 3 = Ret "a"%string
  /\ strsize mMsg = 3
  /\ encode (CommandResponse x05 mMsg) (replicate 12 x00) = Ret (reply_with_nul, 12).
Proof.
  intros mMsg.
  split; [vm_compute; reflexivity|].
  split; [apply framed_frame; reflexivity|].
  split; [reflexivity|]. split; [reflexivity|].
  assert (H : decode reply_with_nul = Ret (CommandResponse x05 "a"))
    by (vm_compute; reflexivity).
  split; [exact H|]. split; [rewrite H; vm_compute; discriminate|].
  split; [vm_compute; reflexivity|]. split; vm_compute; reflexivity.
Qed.

(** C3: the eight-byte packets [42 45 1b df fa a5 ff 01] and
    [42 45 8d ef fd d2 ff 00] pass every framing check, and [decode] neither
    throws a ProtocolException nor returns a message: on the first the copy
    of [length - 9] bytes from offset 9 leaves the packet, on the second
    [new] throws [std::bad_alloc]. *)
Theorem decode_bare_packets :
  bare_command = [x42; x45; x1b; xdf; xfa; xa5; xff; x01]
  /\ framed bare_command
  /\ decode bare_command = Undefined (OutOfRange 9 (2 ^ 64 - 1))
  /\ bare_login = [x42; x45; x8d; xef; xfd; xd2; xff; x00]
  /\ framed bare_login
  /\ decode bare_login = Throw bad_alloc.
Proof.
  split; [vm_compute; reflexivity|].
  split; [apply framed_frame; reflexivity|].
  split; [unfold bare_command; rewrite decode_frame; reflexivity|].
  split; [vm_compute; reflexivity|].
  split; [apply framed_frame; reflexivity|].
  unfold bare_login. rewrite decode_frame. reflexivity.
Qed.

(** C4: on every eight-byte packet of type 1 or 2 that passes the framing
    checks, [decode] copies [2 ^ 64 - 1] bytes from offset 9, outside the
    eight bytes supplied. *)
Theorem decode_leaves_short_packet (buffer : list byte) :
  framed buffer ->
  size buffer = 8 ->
  buffer !! 7%nat = Some PKT_CMD \/ buffer !! 7%nat = Some PKT_SERVER ->
  decode buffer = Undefined (OutOfRange 9 (2 ^ 64 - 1))
  /\ size buffer < 9 + (2 ^ 64 - 1).
Proof.
  intros Hframed Hsize Hty.
  destruct (framed_inv buffer Hframed) as (ty & rest & _ & ->).
  rewrite size_frame, size_cons in Hsize.
  destruct rest as [|? rest];
    [|rewrite size_cons in Hsize; pose proof (size_nonneg rest); lia].
  split; [|rewrite size_frame; change (size [ty]) with 1; lia].
  rewrite decode_frame.
  destruct Hty as [[= ->] | [= ->]]; reflexivity.
Qed.

Lemma decode_leaves_short_packet_witness :
  framed bare_server
  /\ size bare_server = 8
  /\ decode bare_server = Undefined (OutOfRange 9 (2 ^ 64 - 1)).
Proof.
  assert (H1 : framed bare_server) by (apply framed_frame; reflexivity).
  assert (H2 : size bare_server = 8) by reflexivity.
  split; [exact H1|]. split; [exact H2|].
  exact (proj1 (decode_leaves_short_packet bare_server H1 H2 (or_intror eq_refl))).
Defined.

(** ** What [decode] returns *)

(** Every message [decode] returns was built by one of its four [return]
    statements from the bytes behind the header. *)
Lemma decode_returns (buffer : list byte) (m : Message) :
  decode buffer = Ret m ->
  exists header b8 rest,
    length header = 8%nat
    /\ buffer = header ++ b8 :: rest
    /\ (m = LoginResponse b8 /\ rest = []
        \/ (exists b9 payload,
              rest = b9 :: payload
              /\ m = CommandPartialResponse b8 b9 (string_of_list_byte (c_str payload)))
        \/ m = CommandResponse b8 (string_of_list_byte (c_str rest))
        \/ m = ServerMessage b8 (string_of_list_byte (c_str rest))).
Proof.
  intros H. destruct (Z.lt_ge_cases (size buffer) 8) as [Hlt|Hge].
  { rewrite size_lt_8 in H by assumption. discriminate H. }
  destruct (size_ge_8 buffer Hge)
    as (b0 & b1 & b2 & b3 & b4 & b5 & b6 & b7 & rest & ->).
  rewrite decode_cons8 in H. unfold new_char in H.
  exists [b0; b1; b2; b3; b4; b5; b6; b7].
  repeat match type of H with
         | context [if ?c then _ else _] => destruct c; cbn [bind] in H
         | Throw _ = Ret _ => discriminate H
         | Undefined _ = Ret _ => discriminate H
         | match ?l with [] => _ | _ :: _ => _ end = _ => destruct l
         end;
    injection H as <-; do 2 eexists; (split; [reflexivity|]);
    (split; [reflexivity|]); eauto 8.
Qed.

(** C9: a message returned by [decode] is a LoginResponse, a
    CommandPartialResponse, a CommandResponse or a ServerMessage, never a
    Login, a Command or a ServerAck. *)
Theorem decode_from_server (buffer : list byte) (m : Message) :
  decode buffer = Ret m ->
  (getType m = MSG_LOGIN_RESP \/ getType m = MSG_CMD_PART_RESP
   \/ getType m = MSG_CMD_RESP \/ getType m = MSG_SRV_MSG)
  /\ getType m <> MSG_LOGIN /\ getType m <> MSG_CMD /\ getType m <> MSG_SRV_ACK.
Proof.
  intros H.
  destruct (decode_returns buffer m H)
    as (header & b8 & rest & _ & _ & [[-> _] | [(b9 & payload & _ & ->) | [-> | ->]]]);
    cbn [getType]; repeat split; auto; discriminate.
Qed.

Lemma decode_from_server_witness :
  let m := CommandResponse x05 "a" in
  decode reply_with_nul = Ret m
  /\ (getType m = MSG_LOGIN_RESP \/ getType m = MSG_CMD_PART_RESP
      \/ getType m = MSG_CMD_RESP \/ getType m = MSG_SRV_MSG)
  /\ getType m <> MSG_LOGIN /\ getType m <> MSG_CMD /\ getType m <> MSG_SRV_ACK.
Proof.
  intros m.
  assert (H : decode reply_with_nul = Ret m) by (vm_compute; reflexivity).
  split; [exact H|].
  exact (decode_from_server reply_with_nul m H).
Defined.

(** How far the text of a decoded CommandResponse, CommandPartialResponse
    or ServerMessage goes: it is the payload (the bytes from offset 9, or 10
    for a CommandPartialResponse, to the end of the packet) cut at its first
    [0x00] byte; what follows that byte in the packet is lost. *)
Lemma decoded_text_stops_at_nul (buffer : list byte) (m : Message) :
  decode buffer = Ret m ->
  carries_text m = true ->
  exists rest,
    drop (payload_offset m) buffer = list_byte_of_string (text m) ++ rest
    /\ has_nul (text m) = false
    /\ (rest = [] \/ exists rest', rest = x00 :: rest').
Proof.
  intros H Htext.
  destruct (decode_returns buffer m H)
    as (header & b8 & rest & Hlen & -> & [[-> _] | [(b9 & payload & -> & ->) | [-> | ->]]]);
    try discriminate Htext;
    do 8 (destruct header as [|? header]; try discriminate Hlen);
    destruct header; try discriminate Hlen;
    cbn [payload_offset text drop app]; unfold has_nul;
    rewrite list_byte_of_string_of_list_byte; apply c_str_prefix.
Qed.

(** C5: the thirteen-byte packet [42 45 48 d7 4f 05 ff 02 07 68 69 00 21]
    decodes to a ServerMessage, and the payload its length determines is the
    four bytes [68 69 00 21] from offset 9 on. The text of the decoded
    message is [hi], the two bytes before the [0x00]: [extractStr] is handed
    the count 4 and copies the four bytes, and the count is lost where the
    string is built from the C string. [encode] goes by the size of the
    string: the packet is what it writes for the ServerMessage with the
    four-byte text. *)
Theorem decode_notice_with_nul :
  let mMsg := string_of_list_byte [x68; x69; x00; x21] in
  notice_with_nul
  = [x42; x45; x48; xd7; x4f; x05; xff; x02; x07; x68; x69; x00; x21]
  /\ decode notice_with_nul = Ret (ServerMessage x07 "hi")
  /\ size_sub (size notice_with_nul) 9 = 4
  /\ drop 9 notice_with_nul = [x68; x69; x00; x21]
  /\ list_byte_of_string "hi" <> drop 9 notice_with_nul
  /\ extractStr notice_with_nul 9 4 = Ret "hi"%string
  /\ strsize mMsg = 4
  /\ encode (ServerMessage x07 mMsg) (replicate 13 x00) = Ret (notice_with_nul, 13).
Proof.
  intros mMsg.
  split; [vm_compute; reflexivity|].
  split; [vm_compute; reflexivity|]. split; [reflexivity|].
  split; [reflexivity|]. split; [vm_compute; discriminate|].
  split; [vm_compute; reflexivity|]. split; vm_compute; reflexivity.
Qed.

(** ** The login packet of the specification *)

(** C8: [encode] of [Login("secret")] returns 14 and leaves in the buffer
    the bytes [42 45], the CRC-32 of [ff 00 73 65 63 72 65 74] least
    significant byte first, then [ff 00] and the six bytes of the password;
    the checksum is [0xae0990c9], stored as [c9 90 09 ae]. *)
Theorem encode_login_secret (buffer : list byte) :
  14 <= size buffer ->
  exists old rest,
    buffer = old ++ rest
    /\ length old = 14%nat
    /\ encode (Login "secret") buffer
       = Ret ([x42; x45]
              ++ bytes_of_uint32
                   (uint32 (crc32 0 [xff; x00; x73; x65; x63; x72; x65; x74]))
              ++ [xff; x00; x73; x65; x63; x72; x65; x74] ++ rest, 14)
    /\ uint32 (crc32 0 [xff; x00; x73; x65; x63; x72; x65; x74]) = 0xae0990c9
    /\ bytes_of_uint32 0xae0990c9 = [xc9; x90; x09; xae].
Proof.
  intros Hroom.
  destruct (encode_spec (Login "secret") buffer Hroom) as (old & rest & Hb & Hl & He).
  exists old, rest. split; [exact Hb|]. split; [exact Hl|].
  split; [exact He|]. split; vm_compute; reflexivity.
Qed.

Lemma encode_login_secret_witness :
  let buffer := replicate 16 xaa in
  14 <= size buffer
  /\ encode (Login "secret") buffer
     = Ret ([x42; x45; xc9; x90; x09; xae; xff; x00;
             x73; x65; x63; x72; x65; x74; xaa; xaa], 14).
Proof.
  intros buffer.
  assert (H : 14 <= size buffer) by (vm_compute; discriminate).
  split; [exact H|].
  destruct (encode_login_secret buffer H) as (old & rest & Hb & Hl & He & _).
  assert (Hr : rest = drop 14 buffer)
    by (rewrite Hb, <- Hl; symmetry; apply drop_app_length).
  rewrite He, Hr. vm_compute. reflexivity.
Defined.

(** ** The sequence allocator *)

Lemma next_seqnum_differs (seqnum : byte) :
  to_uint8 (byte_val seqnum + 1) <> seqnum.
Proof.
  intros H. apply (f_equal byte_val) in H. rewrite byte_val_to_uint8 in H.
  pose proof (byte_val_range seqnum). Z.div_mod_to_equations. lia.
Qed.

(** The allocator returns its counter and advances it by one, from 255 back
    to 0. *)
Lemma getNextSeqNum_wraps :
  getNextSeqNum xff = (xff, x00)
  /\ forall n, byte_val n < 255 ->
       byte_val (snd (getNextSeqNum n)) = byte_val n + 1.
Proof.
  split; [reflexivity|]. intros n Hn. cbn [getNextSeqNum snd].
  rewrite byte_val_to_uint8. pose proof (byte_val_range n).
  rewrite Z.mod_small; lia.
Qed.

(** C10: the copy of a Command carries the value the static counter has
    when the copy is made, and the counter advances; the text is that of the
    original, its sequence number plays no part. A Command copied right
    after its construction has the sequence number that follows its own. *)
Theorem command_copy_takes_next_seqnum :
  (forall (command : Message) (mNextSeqNum : byte),
      Command_copy command mNextSeqNum
      = (Command mNextSeqNum (getCommand command),
         to_uint8 (byte_val mNextSeqNum + 1)))
  /\ (forall (seqnum mNextSeqNum : byte) (cmd : string),
         seqnum <> mNextSeqNum <->
         getSeqNum (fst (Command_copy (Command seqnum cmd) mNextSeqNum)) <> seqnum)
  /\ (forall (cmd : string) (mNextSeqNum : byte),
         let original := Command_new cmd mNextSeqNum in
         let copy := Command_copy (fst original) (snd original) in
         getSeqNum (fst original) = mNextSeqNum
         /\ getSeqNum (fst copy) = to_uint8 (byte_val mNextSeqNum + 1)
         /\ getSeqNum (fst copy) <> getSeqNum (fst original)
         /\ getCommand (fst copy) = cmd).
Proof.
  split; [reflexivity|]. split.
  - intros seqnum ctr cmd. cbn. split; intros H E; apply H; now symmetry.
  - intros cmd ctr. cbn. repeat split. apply next_seqnum_differs.
Qed.

(** ** The session *)

Lemma sendPacket_spec (msg : Message) (w : World) :
  size (wire msg) <= BUF_SIZE ->
  sendPacket msg w =
  let w' := set_writes (tail (writes w)) w in
  match head (writes w) with
  | Some false => (Throw (ProtocolException "partial/failed write"), w')
  | _ => (Ret tt, set_sent (sent w ++ [wire msg]) w')
  end.
Proof.
  intros Hroom. unfold sendPacket.
  destruct (encode_spec msg (replicate (Z.to_nat BUF_SIZE) x00))
    as (old & rest & _ & _ & ->).
  { unfold size at 2. rewrite length_replicate. exact Hroom. }
  cbv zeta. unfold wire. rewrite take_frame. reflexivity.
Qed.

Lemma sendPacket_written (msg : Message) (w : World) :
  size (wire msg) <= BUF_SIZE ->
  head (writes w) <> Some false ->
  sendPacket msg w
  = (Ret tt, set_sent (sent w ++ [wire msg]) (set_writes (tail (writes w)) w)).
Proof.
  intros Hroom Hw. rewrite sendPacket_spec by assumption. cbv zeta.
  destruct (head (writes w)) as [[|]|]; congruence.
Qed.

Lemma receivePacket_datagram (w : World) (bytes : list byte) (rest : list Arrival) :
  inbox w = Datagram bytes :: rest ->
  receivePacket w = (decode (take (Z.to_nat BUF_SIZE) bytes), set_inbox rest w).
Proof. intros H. unfold receivePacket. now rewrite H. Qed.

Lemma size_wire_login (mPassword : string) :
  size (wire (Login mPassword)) = 8 + strsize mPassword.
Proof.
  unfold wire. cbn [body]. rewrite size_frame, size_cons, strsize_bytes. lia.
Qed.

(** C6, as the code has it: when the reply to the login packet decodes to a
    LoginResponse with result 0, [run] ends with the ProtocolException
    "Wrong RCON password!" (there is no exception class of its own for a
    rejected login) and the login packet is the only packet sent; when the
    result is not 0, as for 1, [run] goes on with the command loop; when
    the reply decodes to a message of another class, [run] ends with the
    ProtocolException "Unexpected message received!". *)
Theorem login_reply (interactive quiet : bool) (mPassword command : string)
  (w : World) (bytes : list byte) (rest : list Arrival) (reply : Message) :
  8 + strsize mPassword <= BUF_SIZE ->
  head (writes w) <> Some false ->
  inbox w = Datagram bytes :: rest ->
  decode (take (Z.to_nat BUF_SIZE) bytes) = Ret reply ->
  let w1 :=
    set_inbox rest
      (set_sent (sent w ++ [wire (Login mPassword)])
         (set_writes (tail (writes w)) w)) in
  sent w1 = sent w ++ [wire (Login mPassword)]
  /\ run interactive quiet mPassword command w =
     match reply with
     | LoginResponse mResult =>
         if Byte.eqb mResult x00
         then Some (Throw (ProtocolException "Wrong RCON password!"), w1)
         else session interactive quiet command w1
     | _ => Some (Throw (ProtocolException "Unexpected message received!"), w1)
     end.
Proof.
  intros Hroom Hwrite Hinbox Hreply w1. split; [reflexivity|].
  unfold run, login, andThen.
  rewrite sendPacket_written by (rewrite ?size_wire_login; assumption).
  erewrite receivePacket_datagram by exact Hinbox.
  rewrite Hreply. fold w1.
  destruct reply as [? | r | ? ? | ? | ? ? | ? ? | ? ? ?]; try reflexivity.
  destruct (Byte.eqb r x00); reflexivity.
Qed.

Lemma login_reply_witness :
  let w := world_of [frame [PKT_LOGIN; x01]; frame [PKT_CMD; x00; x6f; x6b]] [] in
  8 + strsize "secret" <= BUF_SIZE
  /\ head (writes w) <> Some false
  /\ run false false "secret" "players" w
     = session false false "players"
         (set_inbox [Datagram (frame [PKT_CMD; x00; x6f; x6b])]
            (set_sent [wire (Login "secret")] w)).
Proof.
  intros w.
  assert (H1 : 8 + strsize "secret" <= BUF_SIZE) by (vm_compute; discriminate).
  assert (H2 : head (writes w) <> Some false) by discriminate.
  split; [exact H1|]. split; [exact H2|].
  exact (proj2 (login_reply false false "secret" "players" w
                  (frame [PKT_LOGIN; x01])
                  [Datagram (frame [PKT_CMD; x00; x6f; x6b])]
                  (LoginResponse x01) H1 H2 eq_refl
                  ltac:(vm_compute; reflexivity))).
Defined.

(** C6 fails on the class of the error: after the reply
    [LoginResponse(0)] the session ends with a ProtocolException, as it
    does after a reply of another class, not with an error of a class of
    its own. *)
Lemma login_rejected_is_protocol_error :
  let rejected := world_of [[x42; x45; xff; xed; xd9; x41; xff; x00; x00]] [] in
  let unexpected := world_of [[x42; x45; x7d; x8f; xef; x73; xff; x02; x00]] [] in
  exists e w' e2 w2',
    decode [x42; x45; xff; xed; xd9; x41; xff; x00; x00] = Ret (LoginResponse x00)
    /\ run false false "secret" "players" rejected = Some (Throw e, w')
    /\ e = ProtocolException "Wrong RCON password!"
    /\ sent w' = [wire (Login "secret")]
    /\ error_class e = Some ProtocolError
    /\ error_class e <> Some AuthError
    /\ run false false "secret" "players" unexpected = Some (Throw e2, w2')
    /\ error_class e2 = error_class e.
Proof.
  intros rejected unexpected. eexists _, _, _, _.
  split; [vm_compute; reflexivity|].
  split; [vm_compute; reflexivity|].
  split; [reflexivity|]. split; [vm_compute; reflexivity|].
  split; [reflexivity|]. split; [discriminate|].
  split; [vm_compute; reflexivity | reflexivity].
Qed.

(** C7: when [receivePacket], inside the inner loop, returns a
    ServerMessage with sequence number [seqNum], its text goes to [log]
    (followed by a line end, and printed unless the quiet option is set),
    the next packet written is the nine-byte frame of [ServerAck(seqNum)],
    and the loop goes round again: it does not end with this round, and
    its next round receives from the socket once more. When nothing more
    arrives, that round ends the loop with the ProtocolException "timeout";
    when a CommandResponse arrives, it logs its text and the loop ends
    normally, the acknowledgement being the only packet sent. The [write]
    is taken to succeed, as everywhere in the specification of the
    session. *)
Theorem server_message_acknowledged (quiet : bool) (w : World)
  (bytes : list byte) (rest : list Arrival) (seqNum : byte) (mMsg : string) :
  inbox w = Datagram bytes :: rest ->
  decode (take (Z.to_nat BUF_SIZE) bytes) = Ret (ServerMessage seqNum mMsg) ->
  head (writes w) <> Some false ->
  exists w',
    handleResponse quiet w = (Ret MSG_SRV_MSG, w')
    /\ stdout w' = (if quiet then stdout w else stdout w ++ [(mMsg ++ endl)%string])
    /\ sent w' = sent w ++ [wire (ServerAck seqNum)]
    /\ wire (ServerAck seqNum) = frame [PKT_SERVER; seqNum]
    /\ (forall buffer, 9 <= size buffer ->
          exists buffer',
            encode (ServerAck seqNum) buffer = Ret (buffer', 9)
            /\ take 9 buffer' = wire (ServerAck seqNum))
    /\ inbox w' = rest
    /\ (forall fuel,
          handleResponses quiet (S fuel) w = handleResponses quiet fuel w')
    /\ handleResponses quiet 1 w = None
    /\ (forall fuel,
          handleResponses quiet (S (S fuel)) w
          = match handleResponse quiet w' with
            | (Ret msgType, w'') =>
                if MsgType_eqb msgType MSG_CMD_PART_RESP
                   || MsgType_eqb msgType MSG_SRV_MSG
                then handleResponses quiet fuel w''
                else Some (Ret tt, w'')
            | (Throw e, w'') => Some (Throw e, w'')
            | (Undefined v, w'') => Some (Undefined v, w'')
            end)
    /\ (rest = [] ->
        forall fuel,
          handleResponses quiet (S (S fuel)) w
          = Some (Throw (ProtocolException "timeout"), w'))
    /\ (forall bytes' rest' seqNum' mMsg',
          rest = Datagram bytes' :: rest' ->
          decode (take (Z.to_nat BUF_SIZE) bytes')
          = Ret (CommandResponse seqNum' mMsg') ->
          forall fuel,
          exists w'',
            handleResponses quiet (S (S fuel)) w = Some (Ret tt, w'')
            /\ stdout w''
               = (if quiet then stdout w
                  else stdout w ++ [(mMsg ++ endl)%string; (mMsg' ++ endl)%string])
            /\ sent w'' = sent w ++ [wire (ServerAck seqNum)]
            /\ inbox w'' = rest').
Proof.
  intros Hinbox Hdecode Hwrite.
  assert (Hrun : exists w',
             handleResponse quiet w = (Ret MSG_SRV_MSG, w')
             /\ stdout w' = (if quiet then stdout w else stdout w ++ [(mMsg ++ endl)%string])
             /\ sent w' = sent w ++ [wire (ServerAck seqNum)]
             /\ inbox w' = rest).
  { unfold handleResponse, andThen.
    erewrite receivePacket_datagram by exact Hinbox. rewrite Hdecode.
    unfold log.
    destruct quiet; cbn [negb ret print];
      (rewrite sendPacket_written; [| vm_compute; discriminate | exact Hwrite]);
      eexists; repeat split. }
  destruct Hrun as (w' & Hstep & Hout & Hsent & Hrest).
  assert (Hround : forall fuel,
             handleResponses quiet (S fuel) w = handleResponses quiet fuel w').
  { intros fuel. cbn [handleResponses]. rewrite Hstep. reflexivity. }
  exists w'.
  split; [exact Hstep|]. split; [exact Hout|]. split; [exact Hsent|].
  split; [reflexivity|]. split.
  { intros buffer Hroom.
    destruct (encode_spec (ServerAck seqNum) buffer Hroom) as (old & tl & _ & _ & ->).
    eexists. split; [reflexivity|]. exact (take_app_length (wire (ServerAck seqNum)) tl). }
  split; [exact Hrest|]. split; [exact Hround|].
  split; [rewrite Hround; reflexivity|].
  split; [intros fuel; rewrite Hround; reflexivity|].
  split.
  - intros -> fuel. rewrite Hround. cbn [handleResponses].
    unfold handleResponse, andThen, receivePacket. rewrite Hrest. reflexivity.
  - intros bytes' rest' seqNum' mMsg' -> Hreply fuel.
    rewrite Hround. cbn [handleResponses]. unfold handleResponse, andThen.
    erewrite receivePacket_datagram by exact Hrest. rewrite Hreply.
    unfold log.
    destruct quiet; cbn [negb ret print getType MsgType_eqb orb];
      eexists; (split; [reflexivity|]);
      cbn [stdout sent inbox set_stdout set_inbox];
      rewrite ?Hout, ?Hsent, <- ?app_assoc; repeat split.
Qed.

Lemma server_message_acknowledged_witness :
  let notice := frame [PKT_SERVER; x09; x68; x69] in
  let reply := frame [PKT_CMD; x00; x6f; x6b] in
  let w := world_of [notice; reply] [] in
  (exists w',
     handleResponse false w = (Ret MSG_SRV_MSG, w')
     /\ stdout w' = [("hi" ++ endl)%string]
     /\ sent w' = [[x42; x45; xd9; x37; x33; x0a; xff; x02; x09]]
     /\ handleResponses false 1 w = None)
  /\ exists w'',
       handleResponses false 2 w = Some (Ret tt, w'')
       /\ stdout w'' = [("hi" ++ endl)%string; ("ok" ++ endl)%string]
       /\ sent w'' = [[x42; x45; xd9; x37; x33; x0a; xff; x02; x09]]
       /\ inbox w'' = [].
Proof.
  intros notice reply w.
  assert (H1 : inbox w = Datagram notice :: [Datagram reply]) by reflexivity.
  assert (H2 : decode (take (Z.to_nat BUF_SIZE) notice) = Ret (ServerMessage x09 "hi"))
    by (vm_compute; reflexivity).
  assert (H3 : head (writes w) <> Some false) by discriminate.
  assert (H4 : decode (take (Z.to_nat BUF_SIZE) reply) = Ret (CommandResponse x00 "ok"))
    by (vm_compute; reflexivity).
  destruct (server_message_acknowledged false w notice _ x09 "hi" H1 H2 H3)
    as (w' & Hstep & Hout & Hsent & _ & _ & _ & _ & Hone & _ & _ & Hreply).
  assert (Hack : wire (ServerAck x09) = [x42; x45; xd9; x37; x33; x0a; xff; x02; x09])
    by (vm_compute; reflexivity).
  split.
  - exists w'. split; [exact Hstep|]. split; [exact Hout|].
    split; [rewrite Hsent, Hack; reflexivity | exact Hone].
  - destruct (Hreply reply [] x00 "ok"%string eq_refl H4 0%nat)
      as (w'' & Hloop & Hout' & Hsent' & Hin').
    exists w''. split; [exact Hloop|]. split; [exact Hout'|].
    split; [rewrite Hsent', Hack; reflexivity | exact Hin'].
Defined.

(** When the [write] of the acknowledgement fails, the session ends with a
    ProtocolException, as on every failure of the transport. *)
Lemma server_message_write_fails (quiet : bool) (w : World)
  (bytes : list byte) (rest : list Arrival) (seqNum : byte) (mMsg : string) :
  inbox w = Datagram bytes :: rest ->
  decode (take (Z.to_nat BUF_SIZE) bytes) = Ret (ServerMessage seqNum mMsg) ->
  head (writes w) = Some false ->
  exists w',
    handleResponse quiet w
    = (Throw (ProtocolException "partial/failed write"), w')
    /\ sent w' = sent w.
Proof.
  intros Hinbox Hdecode Hwrite.
  unfold handleResponse, andThen.
  erewrite receivePacket_datagram by exact Hinbox. rewrite Hdecode.
  unfold log.
  destruct quiet; cbn [negb ret print];
    (rewrite sendPacket_spec by (vm_compute; discriminate));
    cbv zeta; cbn [writes set_inbox set_stdout]; rewrite Hwrite;
    eexists; split; reflexivity.
Qed.

(** ** The loops of [run] end

    The bounds on the iterations in [handleResponses] and [commands] are
    never reached from [run]: every iteration that goes on has taken an
    arrival from the inbox. *)

Lemma keeps_inbox_ret {A : Type} (a : A) : keeps_inbox (ret a).
Proof. intros w. reflexivity. Qed.

Lemma keeps_inbox_print (text : string) : keeps_inbox (print text).
Proof. intros w. reflexivity. Qed.

Lemma keeps_inbox_log (quiet : bool) (msg : string) : keeps_inbox (log quiet msg).
Proof. intros w. unfold log. destruct quiet; reflexivity. Qed.

Lemma keeps_inbox_sendPacket (msg : Message) : keeps_inbox (sendPacket msg).
Proof.
  intros w. unfold sendPacket.
  destruct (encode msg _) as [[buf len]| |]; try reflexivity.
  cbv zeta. destruct (head (writes w)) as [[|]|]; reflexivity.
Qed.

Lemma keeps_inbox_newCommand (cmdStr : string) : keeps_inbox (newCommand cmdStr).
Proof. intros w. reflexivity. Qed.

Lemma keeps_inbox_andThen {A B : Type} (m : Session A) (k : A -> Session B) :
  keeps_inbox m -> (forall a, keeps_inbox (k a)) -> keeps_inbox (andThen m k).
Proof.
  intros Hm Hk w. unfold andThen. specialize (Hm w).
  destruct (m w) as [[a| |] w']; cbn [snd] in *; try assumption.
  now rewrite Hk.
Qed.

Lemma keeps_inbox_readCommand (interactive : bool) (command : string) :
  keeps_inbox (readCommand interactive command).
Proof.
  unfold readCommand. destruct interactive; [|apply keeps_inbox_ret].
  apply keeps_inbox_andThen; [apply keeps_inbox_print|].
  intros _ w. destruct (stdin w); reflexivity.
Qed.

Lemma receivePacket_inbox (w w' : World) (o : outcome Message) :
  receivePacket w = (o, w') ->
  (length (inbox w') <= length (inbox w))%nat
  /\ forall m, o = Ret m -> (length (inbox w') < length (inbox w))%nat.
Proof.
  unfold receivePacket. intros H.
  destruct (inbox w) as [|[| | |bytes] rest] eqn:E;
    injection H as <- <-; cbn [inbox set_inbox set_closed length];
    rewrite ?E; cbn [length]; split; try lia; intros m; try discriminate; lia.
Qed.

Lemma handleResponse_inbox (quiet : bool) (w w' : World) (o : outcome MsgType) :
  handleResponse quiet w = (o, w') ->
  (length (inbox w') <= length (inbox w))%nat
  /\ forall t, o = Ret t -> (length (inbox w') < length (inbox w))%nat.
Proof.
  unfold handleResponse, andThen at 1. intros H.
  destruct (receivePacket w) as [[m| |] w1] eqn:E;
    apply receivePacket_inbox in E as [Hle Hlt].
  - specialize (Hlt m eq_refl).
    assert (Hk : inbox w' = inbox w1).
    { apply (f_equal snd) in H. cbn [snd] in H. rewrite <- H.
      destruct m; try reflexivity;
        repeat (apply keeps_inbox_andThen; [|intros ?]);
        auto using keeps_inbox_log, keeps_inbox_sendPacket, keeps_inbox_ret. }
    rewrite Hk. split; [lia | intros; lia].
  - injection H as <- <-. split; [exact Hle | discriminate].
  - injection H as <- <-. split; [exact Hle | discriminate].
Qed.

Lemma handleResponses_total (quiet : bool) (fuel : nat) (w : World) :
  (length (inbox w) < fuel)%nat ->
  exists o w',
    handleResponses quiet fuel w = Some (o, w')
    /\ (length (inbox w') <= length (inbox w))%nat
    /\ forall u, o = Ret u -> (length (inbox w') < length (inbox w))%nat.
Proof.
  revert w. induction fuel as [|fuel IH]; intros w Hfuel; [lia|].
  cbn [handleResponses].
  destruct (handleResponse quiet w) as [[t| |] w1] eqn:E;
    apply handleResponse_inbox in E as [Hle Hlt].
  - specialize (Hlt t eq_refl).
    destruct (MsgType_eqb t MSG_CMD_PART_RESP || MsgType_eqb t MSG_SRV_MSG).
    + destruct (IH w1) as (o & w' & -> & Hle' & Hlt'); [lia|].
      exists o, w'. split; [reflexivity|]. split; [lia|].
      intros u Hu. specialize (Hlt' u Hu). lia.
    + exists (Ret tt), w1. split; [reflexivity|]. split; [lia | intros; lia].
  - eexists _, _. split; [reflexivity|]. split; [exact Hle | discriminate].
  - eexists _, _. split; [reflexivity|]. split; [exact Hle | discriminate].
Qed.

Lemma commands_total (interactive quiet : bool) (command : string)
  (fuel : nat) (w : World) :
  (length (inbox w) < fuel)%nat ->
  exists r, commands interactive quiet command fuel w = Some r.
Proof.
  revert w. induction fuel as [|fuel IH]; intros w Hfuel; [lia|].
  cbn [commands].
  pose proof (keeps_inbox_readCommand interactive command w) as Hread.
  destruct (readCommand interactive command w) as [[cmdStr| |] w1] eqn:Eread;
    cbn [snd] in Hread; eauto.
  destruct (String.eqb cmdStr "quit" || String.eqb cmdStr "exit"); eauto.
  assert (Hsend : keeps_inbox (cmd <~ newCommand cmdStr ;; sendPacket cmd))
    by (apply keeps_inbox_andThen;
        auto using keeps_inbox_newCommand, keeps_inbox_sendPacket).
  specialize (Hsend w1).
  destruct ((cmd <~ newCommand cmdStr ;; sendPacket cmd) w1) as [[[]| |] w2] eqn:Esend;
    cbn [snd] in Hsend; eauto.
  destruct (handleResponses_total quiet (S (length (inbox w2))) w2)
    as (o & w3 & -> & Hle & Hlt); [lia|].
  destruct o as [[]| |]; eauto.
  specialize (Hlt tt eq_refl).
  destruct interactive; eauto.
  apply IH. rewrite Hsend, Hread in Hlt. lia.
Qed.

(** [run] has a result in every world. *)
Lemma run_total (interactive quiet : bool) (mPassword command : string) (w : World) :
  exists o w', run interactive quiet mPassword command w = Some (o, w').
Proof.
  unfold run. destruct (login mPassword w) as [[[]| |] w1]; eauto.
  unfold session.
  set (w2 := if interactive then _ else w1).
  destruct (commands_total interactive quiet command (S (length (inbox w2))) w2)
    as ([o w3] & ->); [lia|].
  destruct o as [[]| |]; eauto.
Qed.

(** ** Worked examples *)

(** The check value of CRC-32: the checksum of the digits [123456789]. *)
Example crc32_check_value :
  crc32 0 (list_byte_of_string "123456789") = 0xCBF43926.
Proof. vm_compute. reflexivity. Qed.

(** 256 commands in a row carry the sequence numbers 0 to 255, and the next
    one carries 0 again. *)
Example seqnums_wrap :
  let allocate :=
    fix allocate (n : nat) (counter : byte) : list byte * byte :=
      match n with
      | O => ([], counter)
      | S n' =>
          let (cmd, counter') := Command_new "players" counter in
          let (seqnums, last) := allocate n' counter' in
          (getSeqNum cmd :: seqnums, last)
      end in
  map byte_val (fst (allocate 256%nat x00)) = map Z.of_nat (seq 0 256)
  /\ snd (allocate 256%nat x00) = x00.
Proof. vm_compute. split; reflexivity. Qed.

(** A session on the command line: login accepted, one command, a reply in
    two parts with a server message in between, which is acknowledged. *)
Example run_players :
  let arrivals :=
    [wire (LoginResponse x01);
     wire (CommandPartialResponse x02 x00 "Players on server:");
     wire (ServerMessage x2a "Player #0 connected");
     wire (CommandResponse x00 "(1 players in total)")] in
  exists w',
    run false false "secret" "players" (world_of arrivals []) = Some (Ret tt, w')
    /\ sent w'
       = [wire (Login "secret"); wire (Command x00 "players"); wire (ServerAck x2a)]
    /\ stdout w'
       = [("Players on server:" ++ endl)%string;
          ("Player #0 connected" ++ endl)%string;
          ("(1 players in total)" ++ endl)%string]
    /\ inbox w' = [] /\ mNextSeqNum w' = x01 /\ closed w' = true.
Proof.
  intros arrivals. eexists. split; [vm_compute; reflexivity|].
  repeat split; vm_compute; reflexivity.
Qed.

(** With no reply to the login packet the session ends with the
    ProtocolException "timeout", the login packet being all it sent. *)
Example run_timeout :
  exists w',
    run false false "secret" "players" (world_of [] [])
    = Some (Throw (ProtocolException "timeout"), w')
    /\ sent w' = [wire (Login "secret")].
Proof. eexists. split; vm_compute; reflexivity. Qed.

(** ** The checksum tells packets apart

    One step of the checksum register is linear for [Z.lxor], keeps 32-bit
    values apart from 0, and so do eight steps and the passage of further
    bytes: two byte sequences that differ in one byte have different
    checksums. *)

Ltac xor_bits :=
  apply Z.bits_inj; intros ?n; rewrite ?Z.lxor_spec, ?Z.bits_0;
  repeat match goal with |- context [Z.testbit ?a ?n] => destruct (Z.testbit a n) end;
  reflexivity.

Lemma lxor_range (a b : Z) :
  0 <= a < 2 ^ 32 -> 0 <= b < 2 ^ 32 -> 0 <= Z.lxor a b < 2 ^ 32.
Proof.
  intros Ha Hb.
  assert (Hnn : 0 <= Z.lxor a b) by (apply Z.lxor_nonneg; lia).
  split; [exact Hnn|].
  assert (Hs : Z.shiftr (Z.lxor a b) 32 = 0).
  { rewrite Z.shiftr_lxor, !Z.shiftr_div_pow2 by lia.
    rewrite !Z.div_small by lia. reflexivity. }
  rewrite Z.shiftr_div_pow2 in Hs by lia.
  apply Z.div_small_iff in Hs; lia.
Qed.

Lemma crc32_bits_lxor (k : nat) (a b : Z) :
  crc32_bits k (Z.lxor a b) = Z.lxor (crc32_bits k a) (crc32_bits k b).
Proof.
  revert a b. induction k as [|k IH]; intros a b; [reflexivity|].
  cbn [crc32_bits]. rewrite <- IH. f_equal.
  rewrite <- !Z.bit0_odd, Z.lxor_spec, Z.shiftr_lxor.
  destruct (Z.testbit a 0), (Z.testbit b 0); cbn [xorb]; xor_bits.
Qed.

Lemma crc32_bits_range (k : nat) (c : Z) :
  0 <= c < 2 ^ 32 -> 0 <= crc32_bits k c < 2 ^ 32.
Proof.
  revert c. induction k as [|k IH]; intros c Hc; [exact Hc|].
  cbn [crc32_bits]. apply IH.
  assert (Hs : 0 <= Z.shiftr c 1 < 2 ^ 31).
  { rewrite Z.shiftr_div_pow2 by lia. change (2 ^ 1) with 2.
    change (2 ^ 32) with 4294967296 in Hc. change (2 ^ 31) with 2147483648.
    Z.div_mod_to_equations. lia. }
  destruct (Z.odd c); [apply lxor_range|]; lia.
Qed.

Lemma crc32_bits_nonzero (k : nat) (c : Z) :
  0 <= c < 2 ^ 32 -> c <> 0 -> crc32_bits k c <> 0.
Proof.
  revert c. induction k as [|k IH]; intros c Hc Hnz; [exact Hnz|].
  cbn [crc32_bits].
  assert (Hs : 0 <= Z.shiftr c 1 < 2 ^ 31).
  { rewrite Z.shiftr_div_pow2 by lia. change (2 ^ 1) with 2.
    change (2 ^ 32) with 4294967296 in Hc. change (2 ^ 31) with 2147483648.
    Z.div_mod_to_equations. lia. }
  apply IH.
  - destruct (Z.odd c); [apply lxor_range|]; lia.
  - destruct (Z.odd c) eqn:Hodd.
    + intros H. apply Z.lxor_eq in H. lia.
    + intros H. rewrite Z.shiftr_div_pow2 in H by lia. change (2 ^ 1) with 2 in H.
      assert (He : Z.even c = true) by (rewrite <- Z.negb_odd, Hodd; reflexivity).
      apply Z.even_spec in He as [h ->].
      rewrite Z.mul_comm, Z.div_mul in H by lia. lia.
Qed.

Lemma iter_bits_range (n : nat) (d : Z) :
  0 <= d < 2 ^ 32 -> d <> 0 ->
  0 <= Nat.iter n (crc32_bits 8) d < 2 ^ 32 /\ Nat.iter n (crc32_bits 8) d <> 0.
Proof.
  intros Hd Hnz. induction n as [|n [IHr IHn]]; [auto|].
  cbn [Nat.iter]. split; [now apply crc32_bits_range | now apply crc32_bits_nonzero].
Qed.

(** A difference in the register goes through the rest of the data
    unchanged by the data. *)
Lemma fold_crc32_update_lxor (l : list byte) (s d : Z) :
  fold_left crc32_update l (Z.lxor s d)
  = Z.lxor (fold_left crc32_update l s) (Nat.iter (length l) (crc32_bits 8) d).
Proof.
  revert s d. induction l as [|b l IH]; intros s d; [reflexivity|].
  cbn [fold_left length]. rewrite Nat.iter_succ_r, <- IH. f_equal.
  unfold crc32_update. rewrite <- crc32_bits_lxor. f_equal. xor_bits.
Qed.

Lemma fold_crc32_update_range (l : list byte) (s : Z) :
  0 <= s < 2 ^ 32 -> 0 <= fold_left crc32_update l s < 2 ^ 32.
Proof.
  revert s. induction l as [|b l IH]; intros s Hs; [exact Hs|].
  cbn [fold_left]. apply IH. unfold crc32_update. apply crc32_bits_range.
  apply lxor_range; [exact Hs|]. pose proof (byte_val_range b). lia.
Qed.

Lemma crc32_range (l : list byte) : 0 <= crc32 0 l < 2 ^ 32.
Proof.
  unfold crc32. apply lxor_range; [|lia].
  apply fold_crc32_update_range. change (Z.lxor 0 4294967295) with 4294967295. lia.
Qed.

(** Two sequences that differ in one byte have different checksums. *)
Lemma crc32_one_byte (pre post : list byte) (x y : byte) :
  x <> y ->
  uint32 (crc32 0 (pre ++ x :: post)) <> uint32 (crc32 0 (pre ++ y :: post)).
Proof.
  intros Hxy. unfold uint32.
  rewrite !Z.mod_small by apply crc32_range.
  unfold crc32. rewrite !fold_left_app. cbn [fold_left].
  set (s := fold_left crc32_update pre (Z.lxor 0 4294967295)).
  set (d := Z.lxor (byte_val x) (byte_val y)).
  assert (Hd : 0 <= d < 2 ^ 32 /\ d <> 0).
  { pose proof (byte_val_range x) as Hx. pose proof (byte_val_range y) as Hy. split.
    - apply lxor_range; lia.
    - intros Hz. apply Z.lxor_eq in Hz. now apply byte_val_inj in Hz. }
  destruct Hd as [Hdr Hdn].
  assert (Hy : crc32_update s y = Z.lxor (crc32_update s x) (crc32_bits 8 d)).
  { unfold crc32_update. rewrite <- crc32_bits_lxor. f_equal. subst d. xor_bits. }
  rewrite Hy, fold_crc32_update_lxor.
  destruct (iter_bits_range (length post) (crc32_bits 8 d)) as [_ Hnz];
    [now apply crc32_bits_range | now apply crc32_bits_nonzero |].
  intros H. apply Hnz.
  set (fx := fold_left crc32_update post (crc32_update s x)) in *.
  set (D := Nat.iter (length post) (crc32_bits 8) (crc32_bits 8 d)) in *.
  apply Z.lxor_eq. 
  replace (Z.lxor D 0) with
    (Z.lxor (Z.lxor fx 4294967295) (Z.lxor (Z.lxor fx D) 4294967295)) by xor_bits.
  rewrite H. apply Z.lxor_nilpotent.
Qed.

Lemma uint32_of_bytes_inj (a b c d a' b' c' d' : byte) :
  uint32_of_bytes a b c d = uint32_of_bytes a' b' c' d' ->
  a = a' /\ b = b' /\ c = c' /\ d = d'.
Proof.
  intros H. apply (f_equal bytes_of_uint32) in H.
  rewrite !bytes_of_uint32_of_bytes in H. injection H as -> -> -> ->. auto.
Qed.

Lemma eqb_differs (x y : byte) : y <> x -> Byte.eqb y x = false.
Proof.
  intros H. destruct (Byte.eqb y x) eqn:E; [|reflexivity].
  apply Byte.byte_dec_bl in E. contradiction.
Qed.

(** X1: a packet written by [encode] in which one byte, any one, has been
    replaced by another value is rejected by [decode]: with the error on
    the key bytes when it is one of the first two, and with the checksum
    error otherwise, be it a byte of the stored checksum, the marker, the
    type byte or a byte of the payload. *)
Theorem decode_rejects_corrupted_byte (ty : byte) (rest : list byte)
  (i : nat) (x y : byte) :
  frame (ty :: rest) !! i = Some x ->
  y <> x ->
  let corrupted := <[i := y]> (frame (ty :: rest)) in
  decode corrupted
  = Throw (ProtocolException
             (if (i <? 2)%nat
              then "Key bytes 'B','E' were not matched in packet header!"
              else "CRC32 check failed against " ++ hex (computed_crc32 corrupted)
                   ++ ", packet is corrupted!" ++ endl)).
Proof.
  intros Hx Hy corrupted. subst corrupted. unfold computed_crc32, frame in *.
  cbn [app bytes_of_uint32] in *.
  set (v := uint32 (crc32 0 (xff :: ty :: rest))) in *.
  assert (Hv : uint32_of_bytes (to_uint8 v) (to_uint8 (Z.shiftr v 8))
                 (to_uint8 (Z.shiftr v 16)) (to_uint8 (Z.shiftr v 24)) = v)
    by (apply uint32_of_bytes_of_uint32, uint32_range).
  assert (Hstored : forall a b c d,
             (a, b, c, d) <> (to_uint8 v, to_uint8 (Z.shiftr v 8),
                              to_uint8 (Z.shiftr v 16), to_uint8 (Z.shiftr v 24)) ->
             (v =? uint32_of_bytes a b c d) = false).
  { intros a b c d Hne. destruct (Z.eqb_spec v (uint32_of_bytes a b c d)) as [E|]; [|reflexivity].
    pose proof (eq_trans Hv E) as Ht.
    apply uint32_of_bytes_inj in Ht as (Ha & Hb & Hc & Hd).
    exfalso. apply Hne. congruence. }
  assert (Hdata : forall pre post,
             xff :: ty :: rest = pre ++ x :: post ->
             (uint32 (crc32 0 (pre ++ y :: post)) =? v) = false).
  { intros pre post E. subst v. rewrite E.
    destruct (Z.eqb_spec (uint32 (crc32 0 (pre ++ y :: post)))
                (uint32 (crc32 0 (pre ++ x :: post)))) as [E'|]; [|reflexivity].
    now apply crc32_one_byte in E'. }
  destruct i as [|[|[|[|[|[|[|[|k]]]]]]]]; cbn [lookup list_lookup] in Hx;
    cbn [insert list_insert Nat.ltb Nat.leb drop]; rewrite decode_cons8.
  - injection Hx as <-. now rewrite (eqb_differs _ _ Hy).
  - injection Hx as <-. rewrite (eqb_differs _ _ Hy). now rewrite orb_true_r.
  - injection Hx as <-. cbn [Byte.eqb negb orb].
    rewrite Hstored; [reflexivity | congruence].
  - injection Hx as <-. cbn [Byte.eqb negb orb].
    rewrite Hstored; [reflexivity | congruence].
  - injection Hx as <-. cbn [Byte.eqb negb orb].
    rewrite Hstored; [reflexivity | congruence].
  - injection Hx as <-. cbn [Byte.eqb negb orb].
    rewrite Hstored; [reflexivity | congruence].
  - injection Hx as <-. cbn [Byte.eqb negb orb]. rewrite Hv.
    pose proof (Hdata [] (ty :: rest) eq_refl) as Hd. cbn [app] in Hd.
    now rewrite Hd.
  - injection Hx as <-. cbn [Byte.eqb negb orb]. rewrite Hv.
    pose proof (Hdata [xff] rest eq_refl) as Hd. cbn [app] in Hd.
    now rewrite Hd.
  - cbn [Byte.eqb negb orb]. rewrite Hv.
    assert (Hk : (k < length rest)%nat) by (apply lookup_lt_Some in Hx; exact Hx).
    assert (Hins : <[k:=y]> rest = take k rest ++ y :: drop (S k) rest)
      by (apply insert_take_drop; exact Hk).
    change (list_insert k y rest) with (<[k:=y]> rest) in *.
    unfold insert in Hins |- *. rewrite Hins.
    assert (Hd : (uint32 (crc32 0 (xff :: ty :: take k rest ++ y :: drop (S k) rest))
                  =? v) = false).
    { apply (Hdata (xff :: ty :: take k rest) (drop (S k) rest)).
      cbn [app]. now rewrite take_drop_middle. }
    now rewrite Hd.
Qed.

Lemma decode_rejects_corrupted_byte_witness :
  let packet := wire (CommandResponse x05 "ok") in
  packet !! 10%nat = Some x6b
  /\ x6a <> x6b
  /\ exists msg, decode (<[10%nat := x6a]> packet) = Throw (ProtocolException msg).
Proof.
  intros packet.
  assert (H1 : packet !! 10%nat = Some x6b) by reflexivity.
  assert (H2 : x6a <> x6b) by discriminate.
  split; [exact H1|]. split; [exact H2|].
  eexists. exact (decode_rejects_corrupted_byte x01 _ 10 x6b x6a H1 H2).
Defined.

(** ** More on [encode] *)

(** X2: [encode], given a buffer with room for the packet, returns the
    length of the packet and leaves the packet in the first bytes of the
    buffer (magic, checksum least significant byte first, marker, type byte,
    fields, string), whatever the buffer held, and the bytes behind the
    packet as they were. The length is 8 plus the password for a Login, 9
    for a LoginResponse and a ServerAck, 9 plus the text for a
    ServerMessage, a Command and a CommandResponse, and 10 plus the text
    for a CommandPartialResponse. *)
Theorem encode_writes_frame (m : Message) (buffer : list byte) :
  size (wire m) <= size buffer ->
  encode m buffer = Ret (wire m ++ drop (length (wire m)) buffer, size (wire m))
  /\ size (wire m)
     = match m with
       | Login _ => 8
       | LoginResponse _ | ServerAck _ => 9
       | ServerMessage _ _ | Command _ _ | CommandResponse _ _ => 9
       | CommandPartialResponse _ _ _ => 10
       end + strsize (text m).
Proof.
  intros Hroom. split.
  - destruct (encode_spec m buffer Hroom) as (old & rest & -> & Hlen & ->).
    now rewrite <- Hlen, drop_app_length.
  - unfold wire. rewrite size_frame, <- strsize_bytes.
    destruct m; cbn [body text]; rewrite ?size_cons;
      try change (size (list_byte_of_string "")) with 0;
      try change (size []) with 0; lia.
Qed.

Lemma encode_writes_frame_witness :
  let buffer := replicate 12 x55 in
  size (wire (ServerAck x07)) <= size buffer
  /\ encode (ServerAck x07) buffer
     = Ret ([x42; x45; xde; x1a; x8b; xed; xff; x02; x07; x55; x55; x55], 9).
Proof.
  intros buffer.
  assert (H : size (wire (ServerAck x07)) <= size buffer) by (vm_compute; discriminate).
  split; [exact H|].
  rewrite (proj1 (encode_writes_frame (ServerAck x07) buffer H)).
  vm_compute. reflexivity.
Defined.

Lemma copy_overrun (src l1 l2 : list byte) (dst : Z) :
  dst = size l1 ->
  (length l2 < length src)%nat ->
  copy src (l1 ++ l2) dst = Undefined (OutOfRange (size (l1 ++ l2)) 1).
Proof.
  revert l1 l2 dst.
  induction src as [|c src IH]; intros l1 l2 dst Hdst Hlen; [cbn in Hlen; lia|].
  cbn [copy]. destruct l2 as [|x l2].
  - rewrite app_nil_r. rewrite store_past_end by lia. cbn [bind]. now subst dst.
  - rewrite store_at_size by assumption. cbn [bind].
    replace (l1 ++ c :: l2) with ((l1 ++ [c]) ++ l2) by now rewrite <- app_assoc.
    rewrite IH.
    + rewrite !size_app, !size_cons. do 2 f_equal. change (size []) with 0. lia.
    + rewrite size_app, size_cons. change (size []) with 0. lia.
    + cbn [length] in Hlen. lia.
Qed.

Ltac short_buffer :=
  eexists; split; [reflexivity | unfold size; cbn [length]; lia].

Ltac copy_fails txt buffer H :=
  match goal with
  | |- context [copy txt ?l ?dst] =>
      let pre := eval cbv in (take (Z.to_nat dst) l) in
      change l with (pre ++ buffer);
      rewrite copy_overrun;
      [ cbn [bind]; eexists; split;
        [reflexivity | unfold size; rewrite ?length_app; cbn [length]; lia]
      | reflexivity
      | unfold wire in H; rewrite size_frame in H; cbn [body] in H;
        rewrite !size_cons in H; unfold size in H; lia ]
  end.

(** A buffer shorter than the packet is overrun: [encode] stores a byte at
    or behind its end. *)
Lemma encode_overrun (m : Message) (buffer : list byte) :
  size buffer < size (wire m) ->
  exists first,
    encode m buffer = Undefined (OutOfRange first 1) /\ size buffer <= first.
Proof.
  intros Hshort.
  destruct m as [pw | r | s t | s | s t | s t | n i t]; cbn [encode].
  - unfold Login_encode.
    do 8 (destruct buffer as [|? buffer]; [short_buffer|]).
    rewrite encodeHeader_spec. cbn [bind]. run_store. cbv zeta.
    copy_fails (list_byte_of_string pw) buffer Hshort.
  - unfold LoginResponse_encode.
    do 9 (destruct buffer as [|? buffer]; [short_buffer|]).
    exfalso. unfold wire in Hshort. rewrite size_frame in Hshort.
    unfold size in Hshort. cbn [body length] in Hshort. lia.
  - unfold ServerMessage_encode.
    do 9 (destruct buffer as [|? buffer]; [short_buffer|]).
    rewrite encodeHeader_spec. cbn [bind]. do 2 run_store. cbv zeta.
    copy_fails (list_byte_of_string t) buffer Hshort.
  - unfold ServerAck_encode.
    do 9 (destruct buffer as [|? buffer]; [short_buffer|]).
    exfalso. unfold wire in Hshort. rewrite size_frame in Hshort.
    unfold size in Hshort. cbn [body length] in Hshort. lia.
  - unfold Command_encode.
    do 9 (destruct buffer as [|? buffer]; [short_buffer|]).
    rewrite encodeHeader_spec. cbn [bind]. do 2 run_store. cbv zeta.
    copy_fails (list_byte_of_string t) buffer Hshort.
  - unfold CommandResponse_encode.
    do 9 (destruct buffer as [|? buffer]; [short_buffer|]).
    rewrite encodeHeader_spec. cbn [bind]. do 2 run_store. cbv zeta.
    copy_fails (list_byte_of_string t) buffer Hshort.
  - unfold CommandPartialResponse_encode.
    do 10 (destruct buffer as [|? buffer]; [short_buffer|]).
    rewrite encodeHeader_spec. cbn [bind]. do 3 run_store. cbv zeta.
    copy_fails (list_byte_of_string t) buffer Hshort.
Qed.

(** X3: [sendPacket] does not compare the message with [BUF_SIZE]: for a
    message whose packet is longer than 2048 bytes (a password of more than
    2040 bytes, a command of more than 2039), [encode] stores a byte at or
    behind the end of the local array [buf], which C++ leaves undefined.
    Nothing is said of what the program does from there on. *)
Theorem sendPacket_overruns_buf (msg : Message) (w : World) :
  BUF_SIZE < size (wire msg) ->
  exists first,
    encode msg (replicate (Z.to_nat BUF_SIZE) x00) = Undefined (OutOfRange first 1)
    /\ fst (sendPacket msg w) = Undefined (OutOfRange first 1)
    /\ BUF_SIZE <= first.
Proof.
  intros Hlong. unfold sendPacket.
  destruct (encode_overrun msg (replicate (Z.to_nat BUF_SIZE) x00))
    as (first & -> & Hfirst).
  - unfold size at 1. rewrite length_replicate. exact Hlong.
  - exists first. split; [reflexivity|]. split; [reflexivity|].
    unfold size in Hfirst. rewrite length_replicate in Hfirst. exact Hfirst.
Qed.

Lemma sendPacket_overruns_buf_witness :
  let msg := Command x00 (string_of_list_byte (replicate 2040 x61)) in
  BUF_SIZE < size (wire msg)
  /\ exists first,
       fst (sendPacket msg (world_of [] [])) = Undefined (OutOfRange first 1)
       /\ BUF_SIZE <= first.
Proof.
  intros msg.
  assert (H : BUF_SIZE < size (wire msg)) by (vm_compute; reflexivity).
  split; [exact H|].
  destruct (sendPacket_overruns_buf msg (world_of [] []) H) as (first & _ & Hsend & Hfirst).
  exists first. split; [exact Hsend | exact Hfirst].
Defined.

(** ** More on [decode] *)

Lemma framed_wire (m : Message) : framed (wire m).
Proof. unfold wire. destruct m; apply framed_frame; reflexivity. Qed.

(** A packet of eight bytes or more that [decode] does not reject passes
    the framing checks. *)
Lemma not_rejected_framed (buffer : list byte) :
  8 <= size buffer ->
  ~ (exists msg, decode buffer = Throw (ProtocolException msg)) ->
  framed buffer.
Proof.
  intros Hsize Hnot. rewrite decode_throws_iff in Hnot.
  destruct (size_ge_8 buffer Hsize) as (b0 & b1 & b2 & b3 & b4 & b5 & b6 & b7 & tl & ->).
  unfold framed, stored_crc32, computed_crc32 in *.
  cbn [take drop lookup list_lookup] in *.
  split; [exact Hsize|]. split.
  { destruct (List.list_eq_dec Byte.byte_eq_dec [b0; b1] [x42; x45]) as [E|E];
      [exact E | exfalso; apply Hnot; auto]. }
  split.
  { destruct (Z.eq_dec (uint32_of_bytes b2 b3 b4 b5) (uint32 (crc32 0 (b6 :: b7 :: tl))))
      as [E|E]; [now rewrite E | exfalso; apply Hnot; right; right; left; congruence]. }
  split.
  { destruct (Byte.byte_eq_dec b6 xff) as [E|E];
      [now rewrite E | exfalso; apply Hnot; right; right; right; left; congruence]. }
  exists b7. split; [reflexivity|].
  destruct (known_type b7) eqn:E; [reflexivity|].
  exfalso. apply Hnot. do 4 right. intros ty [= <-]. exact E.
Qed.

(** X4: [decode] finds no fault with the framing of a packet written by
    [encode]: applied to what [encode] left in a buffer with room for the
    packet, it throws no ProtocolException. *)
Theorem decode_accepts_encoded (m : Message) (buffer : list byte) (msg : string) :
  size (wire m) <= size buffer ->
  decode_encode m buffer <> Throw (ProtocolException msg).
Proof.
  intros Hroom H. rewrite decode_encode_wire in H by exact Hroom.
  destruct (framed_wire m) as (Hsize & Hmagic & Hcrc & Hmarker & ty & Hty & Hknown).
  destruct (proj1 (decode_throws_iff (wire m)) (ex_intro _ msg H))
    as [Hf|[Hf|[Hf|[Hf|Hf]]]]; try contradiction; try lia.
  specialize (Hf ty Hty). congruence.
Qed.

Lemma decode_accepts_encoded_witness :
  let m := Login "secret" in
  let buffer := replicate 14 x00 in
  size (wire m) <= size buffer
  /\ decode_encode m buffer <> Throw (ProtocolException "Empty packet received!").
Proof.
  intros m buffer.
  assert (H : size (wire m) <= size buffer) by (vm_compute; discriminate).
  split; [exact H|].
  exact (decode_accepts_encoded m buffer _ H).
Defined.

(** X5: on a packet of any length but eight (and no larger than an object
    can be), [decode] returns a message exactly when the packet passes the
    framing checks: length of at least eight, key bytes, checksum, marker
    and type byte. The eight-byte packets are left out: on those that pass
    the checks [decode] goes on to read behind the packet. *)
Theorem decode_returns_iff (buffer : list byte) :
  size buffer <> 8 ->
  size buffer <= PTRDIFF_MAX ->
  (exists m, decode buffer = Ret m) <-> framed buffer.
Proof.
  intros Hnot8 Hmem. split.
  - intros [m Hm].
    destruct (decode_returns buffer m Hm) as (header & b8 & rest & Hlen & Hbuf & _).
    apply not_rejected_framed.
    + subst buffer. rewrite size_app, size_cons. unfold size.
      rewrite Hlen. lia.
    + intros [msg H]. congruence.
  - intros Hframed.
    assert (Hnine : 9 <= size buffer) by (destruct Hframed as [Hsize _]; lia).
    destruct (framed_inv buffer Hframed) as (ty & rest & Hknown & ->).
    rewrite size_frame, size_cons in Hnine, Hmem.
    destruct rest as [|b8 rest]; [change (size []) with 0 in Hnine; lia|].
    rewrite size_cons in Hmem. pose proof (size_nonneg rest).
    rewrite decode_frame.
    destruct (known_type_inv ty Hknown) as [-> | [-> | ->]];
      cbn [Byte.eqb PKT_LOGIN PKT_CMD PKT_SERVER].
    + destruct rest as [|b9 payload]; [eauto|].
      rewrite size_cons in Hmem. rewrite new_char_fits by lia. eauto.
    + rewrite new_char_fits by lia. eauto.
    + rewrite new_char_fits by lia. eauto.
Qed.

Lemma decode_returns_iff_witness :
  let buffer := [x42; x45; x69; xdd; xde; x36; xff; x00; x01] in
  size buffer <> 8
  /\ size buffer <= PTRDIFF_MAX
  /\ framed buffer
  /\ exists m, decode buffer = Ret m.
Proof.
  intros buffer.
  assert (H1 : size buffer <> 8) by (vm_compute; discriminate).
  assert (H2 : size buffer <= PTRDIFF_MAX) by (vm_compute; discriminate).
  assert (H3 : framed buffer)
    by (change buffer with (frame [PKT_LOGIN; x01]); apply framed_frame; reflexivity).
  split; [exact H1|]. split; [exact H2|]. split; [exact H3|].
  exact (proj2 (decode_returns_iff buffer H1 H2) H3).
Defined.

(** X7: the checks of [decode] are made in a fixed order and each has its
    message: a packet of less than eight bytes is an "Empty packet"; then
    come the key bytes, then the checksum (the message gives the computed
    one in hexadecimal), then the marker and last the type byte, the
    offending byte being put into the message as a character. *)
Theorem decode_error_messages (buffer : list byte) (b6 b7 : byte) :
  (size buffer < 8 ->
   decode buffer = Throw (ProtocolException "Empty packet received!"))
  /\ (8 <= size buffer ->
      buffer !! 6%nat = Some b6 ->
      buffer !! 7%nat = Some b7 ->
      (take 2 buffer <> [x42; x45] ->
       decode buffer
       = Throw (ProtocolException
                  "Key bytes 'B','E' were not matched in packet header!"))
      /\ (take 2 buffer = [x42; x45] ->
          stored_crc32 buffer <> Some (computed_crc32 buffer) ->
          decode buffer
          = Throw (ProtocolException
                     ("CRC32 check failed against " ++ hex (computed_crc32 buffer)
                      ++ ", packet is corrupted!" ++ endl)))
      /\ (take 2 buffer = [x42; x45] ->
          stored_crc32 buffer = Some (computed_crc32 buffer) ->
          b6 <> xff ->
          decode buffer
          = Throw (ProtocolException
                     ("Unexpected byte " ++ chr b6 ++ " received at position 6!")))
      /\ (take 2 buffer = [x42; x45] ->
          stored_crc32 buffer = Some (computed_crc32 buffer) ->
          b6 = xff ->
          known_type b7 = false ->
          decode buffer
          = Throw (ProtocolException
                     ("Unknown message type " ++ chr b7 ++ " received!")))).
Proof.
  split; [apply size_lt_8|].
  intros Hsize H6 H7.
  destruct (size_ge_8 buffer Hsize) as (c0 & c1 & c2 & c3 & c4 & c5 & c6 & c7 & tl & ->).
  unfold stored_crc32, computed_crc32. cbn [take drop lookup list_lookup] in *.
  injection H6 as ->. injection H7 as ->. rewrite decode_cons8.
  repeat split.
  - intros Hmagic.
    destruct (Byte.eqb c0 x42) eqn:E0; [|reflexivity].
    destruct (Byte.eqb c1 x45) eqn:E1; [|reflexivity].
    apply Byte.byte_dec_bl in E0, E1. congruence.
  - intros [= -> ->] Hcrc. cbn [Byte.eqb negb orb].
    destruct (Z.eqb_spec (uint32 (crc32 0 (b6 :: b7 :: tl))) (uint32_of_bytes c2 c3 c4 c5))
      as [E|E]; [congruence | reflexivity].
  - intros [= -> ->] [= Hcrc] Hmarker. cbn [Byte.eqb negb orb].
    rewrite Hcrc, Z.eqb_refl. cbn [negb].
    now rewrite (eqb_differs _ _ Hmarker).
  - intros [= -> ->] [= Hcrc] -> Htype. cbn [Byte.eqb negb orb].
    rewrite Hcrc, Z.eqb_refl. cbn [negb].
    unfold known_type in Htype.
    apply orb_false_elim in Htype as [Htype H2].
    apply orb_false_elim in Htype as [H0 H1].
    now rewrite H0, H1, H2.
Qed.

Lemma decode_error_messages_witness :
  let buffer := [x42; x45; x00; x00; x00; x00; xff; x09; x00] in
  8 <= size buffer
  /\ decode buffer
     = Throw (ProtocolException
                ("CRC32 check failed against " ++ hex (computed_crc32 buffer)
                 ++ ", packet is corrupted!" ++ endl)).
Proof.
  intros buffer.
  assert (H : 8 <= size buffer) by (vm_compute; discriminate).
  split; [exact H|].
  destruct (decode_error_messages buffer xff x09) as [_ Hm].
  destruct (Hm H eq_refl eq_refl) as (_ & Hcrc & _).
  apply Hcrc; [reflexivity | vm_compute; discriminate].
Defined.

(** ** More on the sequence allocator *)

Lemma to_uint8_congr (a b : Z) : a mod 256 = b mod 256 -> to_uint8 a = to_uint8 b.
Proof. intros H. unfold to_uint8. now rewrite H. Qed.

Lemma allocate_spec (n : nat) (mNextSeqNum : byte) :
  fst (allocate n mNextSeqNum)
  = map (fun k => to_uint8 (byte_val mNextSeqNum + Z.of_nat k)) (seq 0 n)
  /\ snd (allocate n mNextSeqNum) = to_uint8 (byte_val mNextSeqNum + Z.of_nat n).
Proof.
  revert mNextSeqNum. induction n as [|n IH]; intros c.
  - cbn. now rewrite Z.add_0_r, to_uint8_byte_val.
  - cbn [allocate getNextSeqNum].
    destruct (allocate n (to_uint8 (byte_val c + 1))) as [seqnums last] eqn:E.
    destruct (IH (to_uint8 (byte_val c + 1))) as [IHf IHs].
    rewrite E in IHf, IHs. cbn [fst snd] in *. subst seqnums last. split.
    + cbn [seq map]. f_equal; [now rewrite Z.add_0_r, to_uint8_byte_val|].
      rewrite <- seq_shift, map_map. apply map_ext. intros k.
      apply to_uint8_congr. rewrite byte_val_to_uint8.
      rewrite Zplus_mod_idemp_l. f_equal. lia.
    + apply to_uint8_congr. rewrite byte_val_to_uint8.
      rewrite Zplus_mod_idemp_l. f_equal. lia.
Qed.

(** X8: the [k]-th of [n] sequence numbers drawn in a row is the counter
    plus [k] modulo 256; up to 256 numbers drawn in a row are pairwise
    different, and after 256 draws the counter is back where it was, so the
    257th number is the first again. *)
Theorem allocate_wraps (n : nat) (mNextSeqNum : byte) :
  fst (allocate n mNextSeqNum)
  = map (fun k => to_uint8 (byte_val mNextSeqNum + Z.of_nat k)) (seq 0 n)
  /\ ((n <= 256)%nat -> NoDup (fst (allocate n mNextSeqNum)))
  /\ snd (allocate 256 mNextSeqNum) = mNextSeqNum
  /\ fst (allocate 257 mNextSeqNum) !! 256%nat = Some mNextSeqNum.
Proof.
  destruct (allocate_spec n mNextSeqNum) as [Hf _].
  split; [exact Hf|]. split; [|split].
  - intros Hn. rewrite Hf.
    apply (NoDup_fmap_2_strong _ (seq 0 n)); [|apply NoDup_seq].
    intros j k Hj Hk E.
    apply elem_of_seq in Hj, Hk.
    apply (f_equal byte_val) in E. rewrite !byte_val_to_uint8 in E.
    pose proof (byte_val_range mNextSeqNum).
    Z.div_mod_to_equations. lia.
  - rewrite (proj2 (allocate_spec 256 mNextSeqNum)).
    rewrite <- (to_uint8_byte_val mNextSeqNum) at 2.
    apply to_uint8_congr. change (Z.of_nat 256) with (1 * 256).
    apply Z.mod_add. lia.
  - rewrite (proj1 (allocate_spec 257 mNextSeqNum)).
    rewrite list_lookup_fmap, lookup_seq_lt by lia. cbn [fmap option_fmap option_map].
    f_equal. rewrite <- (to_uint8_byte_val mNextSeqNum) at 2.
    apply to_uint8_congr. change (Z.of_nat (0 + 256)) with (1 * 256).
    apply Z.mod_add. lia.
Qed.

(** ** More on the session *)

Lemma receivePacket_nothing (w : World) :
  inbox w = [] -> receivePacket w = (Throw (ProtocolException "timeout"), w).
Proof. intros H. unfold receivePacket. now rewrite H. Qed.

(** X9: when nothing arrives after the login packet, [run] ends with the
    ProtocolException "timeout"; the login packet is sent once and nothing
    else is. *)
Theorem login_times_out (interactive quiet : bool) (mPassword command : string)
  (w : World) :
  8 + strsize mPassword <= BUF_SIZE ->
  head (writes w) <> Some false ->
  inbox w = [] ->
  run interactive quiet mPassword command w
  = Some (Throw (ProtocolException "timeout"),
          set_sent (sent w ++ [wire (Login mPassword)])
            (set_writes (tail (writes w)) w)).
Proof.
  intros Hroom Hwrite Hinbox. unfold run, login, andThen.
  rewrite sendPacket_written by (rewrite ?size_wire_login; assumption).
  rewrite receivePacket_nothing by exact Hinbox. reflexivity.
Qed.

Lemma login_times_out_witness :
  let w := world_of [] [] in
  8 + strsize "secret" <= BUF_SIZE
  /\ head (writes w) <> Some false
  /\ run false false "secret" "players" w
     = Some (Throw (ProtocolException "timeout"), set_sent [wire (Login "secret")] w).
Proof.
  intros w.
  assert (H1 : 8 + strsize "secret" <= BUF_SIZE) by (vm_compute; discriminate).
  assert (H2 : head (writes w) <> Some false) by discriminate.
  split; [exact H1|]. split; [exact H2|].
  exact (login_times_out false false "secret" "players" w H1 H2 eq_refl).
Defined.

Lemma size_wire_command (seqnum : byte) (cmd : string) :
  size (wire (Command seqnum cmd)) = 9 + strsize cmd.
Proof.
  unfold wire. cbn [body]. rewrite size_frame, !size_cons, strsize_bytes. lia.
Qed.

(** X10: a command that gets no reply is not sent again: the round of the
    command loop sends the Command packet, with the current value of the
    sequence counter, once, and ends with the ProtocolException "timeout".
    At the end of the input the command read in interactive mode is the
    empty string, and it is sent like any other. *)
Theorem command_times_out (interactive quiet : bool) (command : string)
  (fuel : nat) (w : World) :
  let cmdStr :=
    if interactive then default EmptyString (head (stdin w)) else command in
  9 + strsize cmdStr <= BUF_SIZE ->
  String.eqb cmdStr "quit" || String.eqb cmdStr "exit" = false ->
  head (writes w) <> Some false ->
  inbox w = [] ->
  exists w',
    commands interactive quiet command (S fuel) w
    = Some (Throw (ProtocolException "timeout"), w')
    /\ sent w' = sent w ++ [wire (Command (mNextSeqNum w) cmdStr)]
    /\ mNextSeqNum w' = to_uint8 (byte_val (mNextSeqNum w) + 1).
Proof.
  intros cmdStr Hroom Hword Hwrite Hinbox. cbn [commands].
  assert (Hread : exists w1,
             readCommand interactive command w = (Ret cmdStr, w1)
             /\ sent w1 = sent w /\ writes w1 = writes w /\ inbox w1 = inbox w
             /\ mNextSeqNum w1 = mNextSeqNum w).
  { unfold readCommand, cmdStr. destruct interactive.
    - unfold andThen, print. cbn [stdin set_stdout].
      destruct (stdin w); eexists; split; reflexivity || (repeat split).
    - eexists; split; reflexivity || (repeat split). }
  destruct Hread as (w1 & -> & Hs1 & Hw1 & Hi1 & Hn1). rewrite Hword.
  unfold andThen at 1, newCommand, Command_new, getNextSeqNum.
  rewrite sendPacket_written;
    [| rewrite size_wire_command; exact Hroom | cbn [writes set_mNextSeqNum]; now rewrite Hw1].
  cbn [handleResponses]. unfold handleResponse, andThen.
  rewrite receivePacket_nothing by (cbn; now rewrite Hi1).
  eexists. split; [reflexivity|]. cbn. now rewrite Hs1, Hn1.
Qed.

Lemma command_times_out_witness :
  let w := world_of [] [] in
  9 + strsize "" <= BUF_SIZE
  /\ exists w',
       commands true false "" 1 w = Some (Throw (ProtocolException "timeout"), w')
       /\ sent w' = [wire (Command x00 "")].
Proof.
  intros w.
  assert (H1 : 9 + strsize "" <= BUF_SIZE) by (vm_compute; discriminate).
  split; [exact H1|].
  destruct (command_times_out true false "" 0 w H1 eq_refl ltac:(discriminate) eq_refl)
    as (w' & Hrun & Hsent & _).
  exists w'. split; [exact Hrun | exact Hsent].
Defined.

(** X11: a reply in several packets is relayed as it arrives: when the
    packets received decode to CommandPartialResponses followed by a
    CommandResponse, the inner loop of [run] logs their texts in the order
    of arrival, each followed by a line end (nothing with the quiet
    option), whatever the part numbers say, and ends with the
    CommandResponse; it sends nothing, leaves the sequence counter alone
    and leaves the later arrivals in the socket. *)
Theorem partial_responses_stream (quiet : bool)
  (parts : list (list byte * string)) (final : list byte)
  (seqNum : byte) (mMsg : string) (rest : list Arrival) (fuel : nat) (w : World) :
  inbox w = map (fun p => Datagram (fst p)) parts ++ Datagram final :: rest ->
  Forall (fun p => exists n i,
              decode (take (Z.to_nat BUF_SIZE) (fst p))
              = Ret (CommandPartialResponse n i (snd p))) parts ->
  decode (take (Z.to_nat BUF_SIZE) final) = Ret (CommandResponse seqNum mMsg) ->
  (length parts < fuel)%nat ->
  exists w',
    handleResponses quiet fuel w = Some (Ret tt, w')
    /\ stdout w'
       = (if quiet then stdout w
          else stdout w ++ map (fun p => (snd p ++ endl)%string) parts
               ++ [(mMsg ++ endl)%string])
    /\ inbox w' = rest
    /\ sent w' = sent w
    /\ mNextSeqNum w' = mNextSeqNum w.
Proof.
  intros Hinbox Hparts Hfinal. revert fuel w Hinbox.
  induction Hparts as [|[bytes txt] parts (n & i & Hpart) _ IH];
    intros fuel w Hinbox Hfuel;
    (destruct fuel as [|fuel]; [cbn [length] in Hfuel; lia|]);
    cbn [map app fst snd length] in *; cbn [handleResponses];
    unfold handleResponse, andThen;
    erewrite receivePacket_datagram by exact Hinbox.
  - rewrite Hfinal. unfold log.
    destruct quiet; cbn [negb ret print getType MsgType_eqb orb];
      eexists; repeat split.
  - rewrite Hpart. unfold log.
    destruct quiet; cbn [negb ret print getType MsgType_eqb orb].
    + match goal with
      | |- context [handleResponses _ fuel ?w1] =>
          destruct (IH fuel w1) as (w' & -> & Hout & Hin & Hsent & Hseq);
          [reflexivity | lia |]
      end.
      exists w'. repeat split; assumption.
    + match goal with
      | |- context [handleResponses _ fuel ?w1] =>
          destruct (IH fuel w1) as (w' & -> & Hout & Hin & Hsent & Hseq);
          [reflexivity | lia |]
      end.
      exists w'. repeat split; try assumption.
      rewrite Hout. cbn [stdout set_stdout set_inbox].
      now rewrite <- !app_assoc.
Qed.

Lemma partial_responses_stream_witness :
  let part1 := wire (CommandPartialResponse x02 x01 "second") in
  let part0 := wire (CommandPartialResponse x02 x00 "first") in
  let final := wire (CommandResponse x00 "done") in
  let w := world_of [part1; part0; final] [] in
  exists w',
    handleResponses false 3 w = Some (Ret tt, w')
    /\ stdout w'
       = [("second" ++ endl)%string; ("first" ++ endl)%string; ("done" ++ endl)%string].
Proof.
  intros part1 part0 final w.
  destruct (partial_responses_stream false
              [(part1, "second"%string); (part0, "first"%string)] final x00 "done" [] 3 w)
    as (w' & Hrun & Hout & _).
  - reflexivity.
  - repeat constructor; eexists _, _; vm_compute; reflexivity.
  - vm_compute. reflexivity.
  - cbn [length]. lia.
  - exists w'. split; [exact Hrun | exact Hout].
Defined.

(** X12: the words [quit] and [exit] end the session before anything is
    sent for them, be they typed in interactive mode or given as the
    command on the command line: after the login no packet is sent, no
    sequence number is drawn, nothing is read from the socket, and the
    connection is closed. *)
Theorem sentinel_ends_session (interactive quiet : bool) (command : string)
  (w1 : World) :
  let cmdStr :=
    if interactive then default EmptyString (head (stdin w1)) else command in
  cmdStr = "quit"%string \/ cmdStr = "exit"%string ->
  exists w',
    session interactive quiet command w1 = Some (Ret tt, w')
    /\ sent w' = sent w1
    /\ mNextSeqNum w' = mNextSeqNum w1
    /\ inbox w' = inbox w1
    /\ closed w' = true.
Proof.
  intros cmdStr Hword. unfold session. cbn [commands].
  assert (Heqb : String.eqb cmdStr "quit" || String.eqb cmdStr "exit" = true)
    by (destruct Hword as [-> | ->]; reflexivity).
  unfold readCommand. subst cmdStr. destruct interactive.
  - unfold andThen, print. cbn [snd stdin set_stdout].
    destruct (stdin w1) as [|word more]; cbn [head from_option id] in Heqb;
      rewrite Heqb; eexists; repeat split.
  - unfold ret. rewrite Heqb. eexists; repeat split.
Qed.

Lemma sentinel_ends_session_witness :
  let w1 := world_of [] ["exit"%string; "players"%string] in
  exists w',
    session true false "" w1 = Some (Ret tt, w') /\ sent w' = [] /\ closed w' = true.
Proof.
  intros w1.
  destruct (sentinel_ends_session true false "" w1 (or_intror eq_refl))
    as (w' & Hrun & Hsent & _ & _ & Hclosed).
  exists w'. split; [exact Hrun|]. split; [exact Hsent | exact Hclosed].
Defined.

Lemma keeps_stdout_ret {A : Type} (a : A) : keeps_stdout (ret a).
Proof. intros w. reflexivity. Qed.

Lemma keeps_stdout_throw {A : Type} (e : Exception) : keeps_stdout (@throw A e).
Proof. intros w. reflexivity. Qed.

Lemma keeps_stdout_sendPacket (msg : Message) : keeps_stdout (sendPacket msg).
Proof.
  intros w. unfold sendPacket.
  destruct (encode msg _) as [[buf len]| |]; try reflexivity.
  cbv zeta. destruct (head (writes w)) as [[|]|]; reflexivity.
Qed.

Lemma keeps_stdout_receivePacket : keeps_stdout receivePacket.
Proof.
  intros w. unfold receivePacket.
  destruct (inbox w) as [|[| | |bytes] rest]; reflexivity.
Qed.

Lemma keeps_stdout_newCommand (cmdStr : string) : keeps_stdout (newCommand cmdStr).
Proof. intros w. reflexivity. Qed.

Lemma keeps_stdout_andThen {A B : Type} (m : Session A) (k : A -> Session B) :
  keeps_stdout m -> (forall a, keeps_stdout (k a)) -> keeps_stdout (andThen m k).
Proof.
  intros Hm Hk w. unfold andThen. specialize (Hm w).
  destruct (m w) as [[a| |] w']; cbn [snd] in *; try assumption.
  now rewrite Hk.
Qed.

Lemma keeps_stdout_handleResponse : keeps_stdout (handleResponse true).
Proof.
  unfold handleResponse.
  apply keeps_stdout_andThen; [apply keeps_stdout_receivePacket|].
  intros m. destruct m; unfold log; cbn [negb];
    repeat (apply keeps_stdout_andThen; [|intros ?]);
    auto using keeps_stdout_ret, keeps_stdout_sendPacket.
Qed.

Lemma handleResponses_quiet (fuel : nat) (w w' : World) (o : outcome unit) :
  handleResponses true fuel w = Some (o, w') -> stdout w' = stdout w.
Proof.
  revert w. induction fuel as [|fuel IH]; intros w H; [discriminate H|].
  cbn [handleResponses] in H.
  pose proof (keeps_stdout_handleResponse w) as Hstep.
  destruct (handleResponse true w) as [[t| |] w1]; cbn [snd] in Hstep.
  - destruct (MsgType_eqb t MSG_CMD_PART_RESP || MsgType_eqb t MSG_SRV_MSG).
    + rewrite (IH w1 H). exact Hstep.
    + injection H as _ <-. exact Hstep.
  - injection H as _ <-. exact Hstep.
  - injection H as _ <-. exact Hstep.
Qed.

(** X13: with the quiet option and a command on the command line, [run]
    writes nothing to [std::cout], however it ends and whatever the server
    sends: the texts of replies and of server messages are dropped. *)
Theorem quiet_run_prints_nothing (mPassword command : string) (w w' : World)
  (o : outcome unit) :
  run false true mPassword command w = Some (o, w') ->
  stdout w' = stdout w.
Proof.
  unfold run. intros H.
  assert (Hlogin : keeps_stdout (login mPassword)).
  { unfold login.
    apply keeps_stdout_andThen; [apply keeps_stdout_sendPacket | intros _].
    apply keeps_stdout_andThen; [apply keeps_stdout_receivePacket | intros m].
    destruct m; try apply keeps_stdout_throw.
    destruct (Byte.eqb mResult x00);
      [apply keeps_stdout_throw | apply keeps_stdout_ret]. }
  specialize (Hlogin w).
  destruct (login mPassword w) as [[[]| |] w1]; cbn [snd] in Hlogin;
    try (injection H as _ <-; exact Hlogin).
  rewrite <- Hlogin. clear Hlogin. unfold session in H. cbn [commands] in H.
  unfold readCommand, ret in H.
  destruct (String.eqb command "quit" || String.eqb command "exit").
  { injection H as _ <-. reflexivity. }
  assert (Hsend : keeps_stdout (cmd <~ newCommand command ;; sendPacket cmd))
    by (apply keeps_stdout_andThen;
        auto using keeps_stdout_newCommand, keeps_stdout_sendPacket).
  specialize (Hsend w1).
  destruct ((cmd <~ newCommand command ;; sendPacket cmd) w1) as [[[]| |] w2];
    cbn [snd] in Hsend; try (injection H as _ <-; exact Hsend).
  rewrite <- Hsend.
  destruct (handleResponses true (S (length (inbox w2))) w2) as [[o3 w3]|] eqn:E;
    [|discriminate H].
  apply handleResponses_quiet in E. rewrite <- E.
  destruct o3 as [[]| |]; injection H as _ <-; reflexivity.
Qed.

Lemma quiet_run_prints_nothing_witness :
  let w :=
    world_of [wire (LoginResponse x01); wire (ServerMessage x03 "hello");
              wire (CommandResponse x00 "done")] [] in
  exists w',
    run false true "secret" "players" w = Some (Ret tt, w')
    /\ stdout w' = stdout w
    /\ sent w' = [wire (Login "secret"); wire (Command x00 "players"); wire (ServerAck x03)].
Proof.
  intros w.
  assert (H : exists w', run false true "secret" "players" w = Some (Ret tt, w')
                         /\ sent w' = [wire (Login "secret");
                                       wire (Command x00 "players");
                                       wire (ServerAck x03)])
    by (eexists; split; vm_compute; reflexivity).
  destruct H as (w' & Hrun & Hsent).
  exists w'. split; [exact Hrun|]. split; [|exact Hsent].
  exact (quiet_run_prints_nothing "secret" "players" w w' (Ret tt) Hrun).
Defined.

Lemma list_byte_of_string_app (s1 s2 : string) :
  list_byte_of_string (s1 ++ s2) = list_byte_of_string s1 ++ list_byte_of_string s2.
Proof.
  induction s1 as [|c s1 IH]; [reflexivity|].
  change (list_byte_of_string (String c s1 ++ s2))
    with (byte_of_ascii c :: list_byte_of_string (s1 ++ s2)).
  now rewrite IH.
Qed.

(** A [std::string] without a [0x00] is its own C string. *)
Lemma c_string_nul_free (s : string) : has_nul s = false -> c_string s = s.
Proof. apply text_of_bytes. Qed.

(** X15: the failures of the login reach the user through the handler of
    [main]: when no reply arrives, when the reply is rejected by [decode]
    and when it is a LoginResponse with result 0, the program writes
    "Protocol Error: " and the message of the exception to [std::cerr], then
    a line end, and exits with status 1. The message is written as the C
    string [what()] points to: in full when it holds no [0x00], and
    otherwise up to the first one, as for the message of [decode] about a
    marker byte [0x00], which holds that byte. *)
Theorem main_reports_login_failure (interactive quiet : bool)
  (mPassword command : string) (w : World) :
  8 + strsize mPassword <= BUF_SIZE ->
  head (writes w) <> Some false ->
  let w0 := set_sent (sent w ++ [wire (Login mPassword)])
              (set_writes (tail (writes w)) w) in
  (inbox w = [] ->
   main interactive quiet mPassword command w
   = Some (Ret (1, [("Protocol Error: timeout" ++ endl)%string]), w0))
  /\ (forall bytes rest msg,
        inbox w = Datagram bytes :: rest ->
        decode (take (Z.to_nat BUF_SIZE) bytes) = Throw (ProtocolException msg) ->
        main interactive quiet mPassword command w
        = Some (Ret (1, [(c_string ("Protocol Error: " ++ msg) ++ endl)%string]),
                set_inbox rest w0)
        /\ (has_nul msg = false ->
            c_string ("Protocol Error: " ++ msg) = ("Protocol Error: " ++ msg)%string)
        /\ (forall b7 tl,
              take (Z.to_nat BUF_SIZE) bytes
              = [x42; x45] ++ bytes_of_uint32 (uint32 (crc32 0 (x00 :: b7 :: tl)))
                ++ x00 :: b7 :: tl ->
              c_string ("Protocol Error: " ++ msg) = "Protocol Error: Unexpected byte "%string))
  /\ (forall bytes rest,
        inbox w = Datagram bytes :: rest ->
        decode (take (Z.to_nat BUF_SIZE) bytes) = Ret (LoginResponse x00) ->
        main interactive quiet mPassword command w
        = Some (Ret (1, [("Protocol Error: Wrong RCON password!" ++ endl)%string]),
                set_inbox rest w0)).
Proof.
  intros Hroom Hwrite w0. unfold main, run, login, andThen.
  rewrite sendPacket_written by (rewrite ?size_wire_login; assumption).
  fold w0. repeat split.
  - intros Hinbox. now rewrite receivePacket_nothing by exact Hinbox.
  - erewrite receivePacket_datagram by eassumption.
    match goal with H : decode _ = _ |- _ => now rewrite H end.
  - intros Hnul. apply c_string_nul_free.
    unfold has_nul in *. rewrite list_byte_of_string_app, existsb_app, Hnul.
    reflexivity.
  - intros b7 tl Hbytes.
    match goal with H : decode _ = _ |- _ => rename H into Hdecode end.
    rewrite Hbytes in Hdecode.
    cbn [app bytes_of_uint32] in Hdecode. rewrite decode_cons8 in Hdecode.
    rewrite uint32_of_bytes_of_uint32 in Hdecode by apply uint32_range.
    rewrite Z.eqb_refl in Hdecode. cbn [Byte.eqb negb orb] in Hdecode.
    injection Hdecode as <-. reflexivity.
  - intros bytes rest Hinbox Hdecode.
    erewrite receivePacket_datagram by exact Hinbox. now rewrite Hdecode.
Qed.

Lemma main_reports_login_failure_witness :
  let reply := [x42; x45; x84; xe9; x46; x88; x00; x00; x01] in
  let w := world_of [reply] [] in
  let msg := ("Unexpected byte " ++ chr x00 ++ " received at position 6!")%string in
  8 + strsize "secret" <= BUF_SIZE
  /\ head (writes w) <> Some false
  /\ decode (take (Z.to_nat BUF_SIZE) reply) = Throw (ProtocolException msg)
  /\ main false false "secret" "players" w
     = Some (Ret (1, [("Protocol Error: Unexpected byte " ++ endl)%string]),
             set_inbox [] (set_sent [wire (Login "secret")] w)).
Proof.
  intros reply w msg.
  assert (H1 : 8 + strsize "secret" <= BUF_SIZE) by (vm_compute; discriminate).
  assert (H2 : head (writes w) <> Some false) by discriminate.
  assert (H3 : decode (take (Z.to_nat BUF_SIZE) reply) = Throw (ProtocolException msg))
    by (vm_compute; reflexivity).
  split; [exact H1|]. split; [exact H2|]. split; [exact H3|].
  destruct (main_reports_login_failure false false "secret" "players" w H1 H2)
    as (_ & Hrejected & _).
  destruct (Hrejected reply [] msg eq_refl H3) as (Hmain & _ & Hcut).
  rewrite Hmain, (Hcut x00 [x01]); [reflexivity | vm_compute; reflexivity].
Defined.

(** X16: a copy made by a copy constructor reports the type of its
    original, except the copy of a CommandResponse, whose [getType()] is
    [MSG_SRV_MSG]: its copy constructor goes through that of ServerMessage.
    The members are copied as they are, except the sequence number of a
    Command, and no copy but that of a Command moves the sequence
    counter. *)
Theorem copy_construct_type (m : Message) (mNextSeqNum : byte) :
  let original := construct m in
  let result := copy_construct original mNextSeqNum in
  (mType (fst result) = mType original <-> getType m <> MSG_CMD_RESP)
  /\ (getType m = MSG_CMD_RESP -> mType (fst result) = MSG_SRV_MSG)
  /\ (getType m <> MSG_CMD -> members (fst result) = m /\ snd result = mNextSeqNum)
  /\ text (members (fst result)) = text m.
Proof.
  destruct m; cbn; repeat split; intros; try congruence; try discriminate.
Qed.

(** ** The packet dump *)

Lemma debug_bytes_spec (buffer : list byte) (pos chunk : nat) :
  (pos + chunk <= length buffer)%nat ->
  debug_bytes buffer (Z.of_nat pos) chunk
  = Ret (map hex2 (take chunk (drop pos buffer))).
Proof.
  revert pos. induction chunk as [|chunk IH]; intros pos Hroom; [reflexivity|].
  cbn [debug_bytes].
  destruct (lookup_lt_is_Some_2 buffer pos) as [b Hb]; [lia|].
  unfold load. rewrite Nat2Z.id.
  destruct (Z.leb_spec 0 (Z.of_nat pos)); [|lia]. rewrite Hb. cbn [bind].
  replace (Z.of_nat pos + 1) with (Z.of_nat (S pos)) by lia.
  rewrite IH by lia. cbn [bind].
  now rewrite (drop_S _ _ _ Hb).
Qed.

Lemma dumped_step (n : nat) :
  (32 <= n)%nat -> n <> 64%nat -> dumped n = (32 + dumped (n - 32))%nat.
Proof.
  intros Hn H64. unfold dumped.
  assert (Hmod : ((n - 32) mod 32 = n mod 32)%nat).
  { replace n with ((n - 32) + 1 * 32)%nat at 2 by lia.
    now rewrite Nat.Div0.mod_add. }
  rewrite Hmod.
  destruct (Nat.eqb_spec (n mod 32) 0) as [E|E]; cbn [andb].
  - destruct (Nat.leb_spec 64 n), (Nat.leb_spec 64 (n - 32)); try lia.
    exfalso. assert (Hb : (64 < n < 96)%nat) by lia.
    replace n with ((n - 64) + 2 * 32)%nat in E by lia.
    rewrite Nat.Div0.mod_add, Nat.mod_small in E by lia. lia.
  - lia.
Qed.

Lemma debug_rounds_spec (fuel : nat) (buffer : list byte) (pos left : nat) :
  (pos + left = length buffer)%nat ->
  (left < 32 * fuel - 32)%nat ->
  exists lines,
    debug_rounds fuel buffer 32 (Z.of_nat left) (Z.of_nat pos) = Some (Ret lines)
    /\ concat lines = map hex2 (take (dumped left) (drop pos buffer))
    /\ Forall (fun line => (length line <= 32)%nat) lines.
Proof.
  revert pos left. induction fuel as [|fuel IH]; intros pos left Hsum Hfuel; [lia|].
  cbn [debug_rounds].
  destruct (Z.ltb_spec (Z.of_nat left) 32) as [Hlt|Hge].
  - (* the last bytes, fewer than 32 *)
    rewrite size_sub_le by lia. rewrite Z.sub_diag, Nat2Z.id.
    rewrite debug_bytes_spec by lia.
    assert (Hd : dumped left = left).
    { unfold dumped. destruct (Nat.leb_spec 64 left); [lia|]. now rewrite andb_false_r. }
    rewrite Hd.
    destruct (Z.eqb_spec (Z.of_nat left) 0) as [E|E]; cbn [negb].
    + eexists. split; [reflexivity|]. cbn [concat]. rewrite app_nil_r.
      split; [reflexivity|].
      constructor; [rewrite length_map, length_take; lia | constructor].
    + destruct fuel as [|fuel]; [lia|]. cbn [debug_rounds].
      destruct (Z.ltb_spec 0 (Z.of_nat left)); [|lia].
      rewrite size_sub_le by lia. cbn [Z.sub Z.opp Z.add Z.to_nat debug_bytes Z.eqb negb].
      eexists. split; [reflexivity|]. cbn [concat]. rewrite !app_nil_r.
      split; [reflexivity|].
      constructor; [rewrite length_map, length_take; lia|].
      constructor; [cbn [length]; lia | constructor].
  - (* a full line of 32 bytes *)
    rewrite size_sub_le by lia.
    change (Z.to_nat 32) with 32%nat.
    rewrite debug_bytes_spec by lia.
    replace (Z.of_nat left - 32) with (Z.of_nat (left - 32)) by lia.
    replace (Z.of_nat pos + 32) with (Z.of_nat (pos + 32)) by lia.
    destruct (Z.eqb_spec 32 (Z.of_nat (left - 32))) as [E|E]; cbn [negb].
    + assert (left = 64%nat) as -> by lia.
      eexists. split; [reflexivity|]. cbn [concat]. rewrite app_nil_r.
      split; [reflexivity|].
      constructor; [rewrite length_map, length_take; lia | constructor].
    + destruct (IH (pos + 32)%nat (left - 32)%nat) as (lines & -> & Hcat & Hlen);
        [lia | lia |].
      eexists. split; [reflexivity|]. cbn [concat]. rewrite Hcat.
      split.
      * rewrite (dumped_step left) by lia. rewrite <- map_app. f_equal.
        rewrite <- (take_take_drop (drop pos buffer) 32 (dumped (left - 32))).
        now rewrite drop_drop.
      * constructor; [rewrite length_map, length_take; lia | exact Hlen].
Qed.

(** X17: the dump of a packet leaves out its last 32 bytes when its length
    is a multiple of 32 from 64 on: the loop ends as soon as a full line of
    32 bytes leaves exactly 32 bytes to go. The bytes of every other packet
    are dumped in full, two hexadecimal digits and a space each, in lines
    of at most 32. *)
Theorem debug_dumps (buffer : list byte) :
  exists lines,
    debug (S (S (length buffer))) buffer = Some (Ret lines)
    /\ concat lines = map hex2 (take (dumped (length buffer)) buffer)
    /\ Forall (fun line => (length line <= 32)%nat) lines
    /\ dumped (length buffer)
       = (if (length buffer mod 32 =? 0)%nat && (64 <=? length buffer)%nat
          then length buffer - 32 else length buffer)%nat.
Proof.
  destruct (debug_rounds_spec (S (S (length buffer))) buffer 0 (length buffer))
    as (lines & Hrun & Hcat & Hlen); [lia | lia |].
  exists lines. split; [exact Hrun|]. split; [exact Hcat|]. split; [exact Hlen|].
  reflexivity.
Qed.

(** The dump of a packet of 64 bytes shows 32 of them; that of the login
    packet shows all 14. *)
Example debug_lengths :
  (exists lines,
      debug 66 (replicate 64 xab) = Some (Ret lines)
      /\ length (concat lines) = 32%nat)
  /\ debug 16 (wire (Login "secret"))
     = Some (Ret [["42 "; "45 "; "c9 "; "90 "; "09 "; "ae "; "ff "; "00 ";
                   "73 "; "65 "; "63 "; "72 "; "65 "; "74 "]%string; []]).
Proof. split; [eexists; split|]; vm_compute; reflexivity. Qed.

(** ** The exceptions of [decode] *)

(** X6: the exceptions of [decode], for a packet no larger than an object
    can be. It throws a ProtocolException exactly when the packet is
    shorter than eight bytes or its key bytes, its checksum, its marker or
    its type byte fail their check; it throws [std::bad_alloc] exactly on
    the eight-byte packets of type 0 that pass the checks, where the length
    of the text wraps around; and it throws nothing else. *)
Theorem decode_exceptions (buffer : list byte) :
  size buffer <= PTRDIFF_MAX ->
  ((exists msg, decode buffer = Throw (ProtocolException msg))
   <-> (size buffer < 8
        \/ take 2 buffer <> [x42; x45]
        \/ stored_crc32 buffer <> Some (computed_crc32 buffer)
        \/ buffer !! 6%nat <> Some xff
        \/ forall ty, buffer !! 7%nat = Some ty -> known_type ty = false))
  /\ (decode buffer = Throw bad_alloc
      <-> framed buffer /\ size buffer = 8 /\ buffer !! 7%nat = Some PKT_LOGIN)
  /\ (forall e, decode buffer = Throw e ->
        e = bad_alloc \/ exists msg, e = ProtocolException msg).
Proof.
  intros Hmem. split; [apply decode_throws_iff|].
  split; [|apply decode_throws_protocol].
  split.
  - intros Hbad.
    assert (Hsize : 8 <= size buffer).
    { destruct (Z.lt_ge_cases (size buffer) 8) as [Hlt|Hge]; [|exact Hge].
      rewrite size_lt_8 in Hbad by exact Hlt. discriminate Hbad. }
    assert (Hframed : framed buffer).
    { apply not_rejected_framed; [exact Hsize|]. intros [msg H]. congruence. }
    split; [exact Hframed|].
    destruct (framed_inv buffer Hframed) as (ty & rest & Hknown & ->).
    rewrite size_frame, size_cons in Hmem |- *.
    rewrite decode_frame in Hbad.
    destruct (known_type_inv ty Hknown) as [-> | [-> | ->]];
      cbn [Byte.eqb PKT_LOGIN PKT_CMD PKT_SERVER] in Hbad.
    + destruct rest as [|b8 [|b9 payload]]; [split; reflexivity | discriminate Hbad |].
      rewrite !size_cons in Hmem. pose proof (size_nonneg payload).
      rewrite new_char_fits in Hbad by lia. discriminate Hbad.
    + destruct rest as [|b8 payload]; [discriminate Hbad|].
      rewrite size_cons in Hmem. pose proof (size_nonneg payload).
      rewrite new_char_fits in Hbad by lia. discriminate Hbad.
    + destruct rest as [|b8 payload]; [discriminate Hbad|].
      rewrite size_cons in Hmem. pose proof (size_nonneg payload).
      rewrite new_char_fits in Hbad by lia. discriminate Hbad.
  - intros (Hframed & Hsize & Hty).
    destruct (framed_inv buffer Hframed) as (ty & rest & _ & ->).
    injection Hty as ->.
    rewrite size_frame, size_cons in Hsize.
    destruct rest as [|? rest];
      [|rewrite size_cons in Hsize; pose proof (size_nonneg rest); lia].
    rewrite decode_frame. reflexivity.
Qed.

Lemma decode_exceptions_witness :
  size bare_login <= PTRDIFF_MAX
  /\ decode bare_login = Throw bad_alloc.
Proof.
  assert (H : size bare_login <= PTRDIFF_MAX) by (vm_compute; discriminate).
  split; [exact H|].
  apply (proj1 (proj2 (decode_exceptions bare_login H))).
  split; [apply framed_frame; reflexivity|]. split; reflexivity.
Defined.

(** ** The session stays within defined behaviour *)

Lemma decode_defined (buffer : list byte) :
  size buffer <= PTRDIFF_MAX ->
  (size buffer = 8 -> framed buffer -> buffer !! 7%nat = Some PKT_LOGIN) ->
  defined (decode buffer).
Proof.
  intros Hmem Hbare.
  destruct (decode buffer) as [m|e|v] eqn:E; try exact I.
  destruct (Z.lt_ge_cases (size buffer) 8) as [Hlt|Hge].
  { rewrite size_lt_8 in E by exact Hlt. discriminate E. }
  assert (Hframed : framed buffer).
  { apply not_rejected_framed; [exact Hge|]. intros [msg H]. congruence. }
  destruct (framed_inv buffer Hframed) as (ty & rest & Hknown & ->).
  rewrite decode_frame in E.
  rewrite size_frame, size_cons in Hmem, Hbare.
  destruct rest as [|b8 rest].
  - change (size []) with 0 in Hbare.
    specialize (Hbare eq_refl Hframed). injection Hbare as ->.
    discriminate E.
  - rewrite size_cons in Hmem. pose proof (size_nonneg rest).
    destruct (known_type_inv ty Hknown) as [-> | [-> | ->]];
      cbn [Byte.eqb PKT_LOGIN PKT_CMD PKT_SERVER] in E.
    + destruct rest as [|b9 payload]; [discriminate E|].
      rewrite size_cons in Hmem. rewrite new_char_fits in E by lia. discriminate E.
    + rewrite new_char_fits in E by lia. discriminate E.
    + rewrite new_char_fits in E by lia. discriminate E.
Qed.

(** What [read] leaves of a datagram is as harmless as the datagram. *)
Lemma datagram_defined (bytes : list byte) :
  within_packet (Datagram bytes) ->
  defined (decode (take (Z.to_nat BUF_SIZE) bytes)).
Proof.
  intros Hbytes. cbn [within_packet] in Hbytes.
  assert (Hlen : length (take (Z.to_nat BUF_SIZE) bytes)
                 = Nat.min (Z.to_nat BUF_SIZE) (length bytes))
    by apply length_take.
  change (Z.to_nat BUF_SIZE) with 2048%nat in *.
  apply decode_defined.
  - unfold size, PTRDIFF_MAX. lia.
  - unfold size. intros Hsize.
    rewrite take_ge by lia. apply Hbytes. unfold size. lia.
Qed.

Lemma stays_defined_ret (interactive : bool) {A : Type} (a : A) (post : A -> Prop) :
  post a -> stays_defined interactive (ret a) post.
Proof. intros Hpost w Hw. split; assumption. Qed.

Lemma stays_defined_throw (interactive : bool) {A : Type} (e : Exception) (post : A -> Prop) :
  stays_defined interactive (throw e) post.
Proof. intros w Hw. exact Hw. Qed.

Lemma stays_defined_print (interactive : bool) (text : string) :
  stays_defined interactive (print text) (fun _ => True).
Proof. intros w Hw. split; [exact I | exact Hw]. Qed.

Lemma stays_defined_andThen (interactive : bool) {A B : Type} (m : Session A) (k : A -> Session B)
  (mid : A -> Prop) (post : B -> Prop) :
  stays_defined interactive m mid ->
  (forall a, mid a -> stays_defined interactive (k a) post) ->
  stays_defined interactive (andThen m k) post.
Proof.
  intros Hm Hk w Hw. unfold andThen. specialize (Hm w Hw).
  destruct (m w) as [[a|e|v] w1]; [|exact Hm|exact Hm].
  destruct Hm as [Hmid Hw1]. exact (Hk a Hmid w1 Hw1).
Qed.

Lemma stays_defined_sendPacket (interactive : bool) (msg : Message) :
  size (wire msg) <= BUF_SIZE ->
  stays_defined interactive (sendPacket msg) (fun _ => True).
Proof.
  intros Hroom w Hw. rewrite sendPacket_spec by exact Hroom. cbv zeta.
  destruct (head (writes w)) as [[|]|];
    [split; [exact I | exact Hw] | exact Hw | split; [exact I | exact Hw]].
Qed.

Lemma stays_defined_receivePacket (interactive : bool) :
  stays_defined interactive receivePacket (fun _ => True).
Proof.
  intros w [Hinbox Hstdin]. unfold receivePacket.
  destruct (inbox w) as [|a rest] eqn:E.
  { split; [rewrite E; constructor | exact Hstdin]. }
  apply Forall_cons in Hinbox as [Ha Hrest].
  assert (Hw' : forall w', inbox w' = rest -> stdin w' = stdin w ->
                           harmless interactive w').
  { intros w' Hi Hs. split; [now rewrite Hi | now rewrite Hs]. }
  destruct a as [| | |bytes]; try (apply Hw'; reflexivity).
  pose proof (datagram_defined bytes Ha) as Hdef.
  destruct (decode (take (Z.to_nat BUF_SIZE) bytes)) as [m|e|v];
    [split; [exact I|] | | contradiction]; apply Hw'; reflexivity.
Qed.

Lemma stays_defined_newCommand (interactive : bool) (cmdStr : string) :
  fits cmdStr ->
  stays_defined interactive (newCommand cmdStr)
    (fun cmd => size (wire cmd) <= BUF_SIZE).
Proof.
  intros Hfits w Hw. unfold newCommand, Command_new, getNextSeqNum.
  split; [rewrite size_wire_command; exact Hfits | exact Hw].
Qed.

Lemma stays_defined_log (interactive : bool) (quiet : bool) (msg : string) :
  stays_defined interactive (log quiet msg) (fun _ => True).
Proof.
  unfold log. destruct quiet; cbn [negb];
    [now apply stays_defined_ret | apply stays_defined_print].
Qed.

Lemma size_wire_ack (seqNum : byte) : size (wire (ServerAck seqNum)) <= BUF_SIZE.
Proof. vm_compute. discriminate. Qed.

Lemma stays_defined_handleResponse (interactive : bool) (quiet : bool) :
  stays_defined interactive (handleResponse quiet) (fun _ => True).
Proof.
  unfold handleResponse.
  eapply stays_defined_andThen; [apply stays_defined_receivePacket|].
  intros m _.
  destruct m;
    repeat (eapply stays_defined_andThen; [|intros ? _]);
    eauto using stays_defined_ret, stays_defined_log, stays_defined_sendPacket,
      size_wire_ack.
Qed.

Lemma stays_defined_login (interactive : bool) (mPassword : string) :
  8 + strsize mPassword <= BUF_SIZE ->
  stays_defined interactive (login mPassword) (fun _ => True).
Proof.
  intros Hroom. unfold login.
  eapply stays_defined_andThen;
    [apply stays_defined_sendPacket; now rewrite size_wire_login | intros _ _].
  eapply stays_defined_andThen; [apply stays_defined_receivePacket | intros m _].
  destruct m; try apply stays_defined_throw.
  destruct (Byte.eqb mResult x00);
    [apply stays_defined_throw | now apply stays_defined_ret].
Qed.

Lemma stays_defined_readCommand (interactive : bool) (command : string) :
  (interactive = false -> fits command) ->
  stays_defined interactive (readCommand interactive command) fits.
Proof.
  intros Hcommand. unfold readCommand.
  destruct interactive; [|apply stays_defined_ret; now apply Hcommand].
  eapply stays_defined_andThen; [apply stays_defined_print | intros _ _].
  intros w [Hinbox Hstdin]. specialize (Hstdin eq_refl).
  destruct (stdin w) as [|word rest] eqn:E.
  - split; [vm_compute; discriminate|].
    split; [exact Hinbox | intros _; rewrite E; constructor].
  - apply Forall_cons in Hstdin as [Hword Hrest].
    split; [exact Hword|]. split; [exact Hinbox | intros _; exact Hrest].
Qed.

Lemma handleResponses_defined (interactive : bool) (quiet : bool) (fuel : nat) (w w' : World)
  (o : outcome unit) :
  harmless interactive w ->
  handleResponses quiet fuel w = Some (o, w') ->
  defined o /\ harmless interactive w'.
Proof.
  revert w. induction fuel as [|fuel IH]; intros w Hw H; [discriminate H|].
  cbn [handleResponses] in H.
  pose proof (stays_defined_handleResponse interactive quiet w Hw) as Hstep.
  destruct (handleResponse quiet w) as [[t|e|v] w1]; [|
    injection H as <- <-; split; [exact I | exact Hstep] | contradiction].
  destruct Hstep as [_ Hw1].
  destruct (MsgType_eqb t MSG_CMD_PART_RESP || MsgType_eqb t MSG_SRV_MSG).
  - exact (IH w1 Hw1 H).
  - injection H as <- <-. split; [exact I | exact Hw1].
Qed.

Lemma commands_defined (interactive : bool) (quiet : bool) (command : string) (fuel : nat)
  (w w' : World) (o : outcome unit) :
  (interactive = false -> fits command) ->
  harmless interactive w ->
  commands interactive quiet command fuel w = Some (o, w') ->
  defined o /\ harmless interactive w'.
Proof.
  intros Hcommand. revert w.
  induction fuel as [|fuel IH]; intros w Hw H; [discriminate H|].
  cbn [commands] in H.
  pose proof (stays_defined_readCommand interactive command Hcommand w Hw) as Hread.
  destruct (readCommand interactive command w) as [[cmdStr|e|v] w1]; [|
    injection H as <- <-; split; [exact I | exact Hread] | contradiction].
  destruct Hread as [Hfits Hw1].
  destruct (String.eqb cmdStr "quit" || String.eqb cmdStr "exit").
  { injection H as <- <-. split; [exact I | exact Hw1]. }
  assert (Hsend : stays_defined interactive
                    (cmd <~ newCommand cmdStr ;; sendPacket cmd) (fun _ => True)).
  { eapply stays_defined_andThen; [apply stays_defined_newCommand; exact Hfits|].
    intros cmd Hcmd. now apply stays_defined_sendPacket. }
  specialize (Hsend w1 Hw1).
  destruct ((cmd <~ newCommand cmdStr ;; sendPacket cmd) w1) as [[[]|e|v] w2]; [|
    injection H as <- <-; split; [exact I | exact Hsend] | contradiction].
  destruct Hsend as [_ Hw2].
  destruct (handleResponses quiet (S (length (inbox w2))) w2) as [[o3 w3]|] eqn:E;
    [|discriminate H].
  destruct (handleResponses_defined interactive quiet _ w2 w3 o3 Hw2 E) as [Ho3 Hw3].
  destruct o3 as [[]|e|v]; [| injection H as <- <-; split; assumption | contradiction].
  destruct interactive.
  - exact (IH w3 Hw3 H).
  - injection H as <- <-. split; assumption.
Qed.

Lemma defined_unit (o : outcome unit) :
  defined o -> o = Ret tt \/ exists e, o = Throw e.
Proof. destruct o as [[]|e|v]; [auto | eauto | contradiction]. Qed.

(** X14: a session ends, and within defined behaviour, once the server
    stops sending. Let the password fit [buf], and so the command of the
    command line or, in interactive mode, every word typed, standard input
    being at its end after the words given; and let no eight-byte packet of
    type 1 or 2 that passes the framing checks arrive. Then [run] ends: it
    returns or throws an exception. So does the reply loop, and so does the
    command loop, within one round more than there are arrivals, every
    round that goes on having taken a packet from the socket. *)
Theorem session_ends (interactive quiet : bool) (mPassword command : string)
  (w : World) :
  8 + strsize mPassword <= BUF_SIZE ->
  (interactive = false -> fits command) ->
  harmless interactive w ->
  (exists o w',
      run interactive quiet mPassword command w = Some (o, w')
      /\ (o = Ret tt \/ exists e, o = Throw e))
  /\ forall fuel,
       (length (inbox w) < fuel)%nat ->
       (exists o w',
           handleResponses quiet fuel w = Some (o, w')
           /\ (o = Ret tt \/ exists e, o = Throw e)
           /\ (length (inbox w') <= length (inbox w))%nat
           /\ (o = Ret tt -> (length (inbox w') < length (inbox w))%nat))
       /\ exists o w',
            commands interactive quiet command fuel w = Some (o, w')
            /\ (o = Ret tt \/ exists e, o = Throw e).
Proof.
  intros Hroom Hcommand Hw. split.
  - unfold run.
    pose proof (stays_defined_login interactive mPassword Hroom w Hw) as Hlogin.
    destruct (login mPassword w) as [[[]|e|v] w1]; [|eauto 6|contradiction].
    destruct Hlogin as [_ Hw1]. unfold session.
    set (w2 := if interactive then _ else w1).
    assert (Hw2 : harmless interactive w2) by (subst w2; destruct interactive; exact Hw1).
    destruct (commands_total interactive quiet command (S (length (inbox w2))) w2)
      as ([o w3] & E); [lia|].
    rewrite E.
    destruct (commands_defined interactive quiet command _ w2 w3 o Hcommand Hw2 E)
      as [Ho _].
    destruct o as [[]|e|v]; [|eauto 6|contradiction].
    unfold closeConnection. eauto.
  - intros fuel Hfuel. split.
    + destruct (handleResponses_total quiet fuel w Hfuel) as (o & w' & H & Hle & Hlt).
      destruct (handleResponses_defined interactive quiet fuel w w' o Hw H) as [Ho _].
      exists o, w'. split; [exact H|]. split; [now apply defined_unit|].
      split; [exact Hle|]. intros ->. now apply (Hlt tt).
    + destruct (commands_total interactive quiet command fuel w Hfuel) as ([o w'] & H).
      destruct (commands_defined interactive quiet command fuel w w' o Hcommand Hw H)
        as [Ho _].
      exists o, w'. split; [exact H | now apply defined_unit].
Qed.

Lemma session_ends_witness :
  let w :=
    world_of [wire (LoginResponse x01); wire (ServerMessage x03 "hello");
              wire (CommandResponse x00 "done"); bare_login]
      ["players"%string; "status"%string] in
  8 + strsize "secret" <= BUF_SIZE
  /\ harmless true w
  /\ exists o w',
       run true false "secret" "" w = Some (o, w')
       /\ (o = Ret tt \/ exists e, o = Throw e).
Proof.
  intros w.
  assert (H1 : 8 + strsize "secret" <= BUF_SIZE) by (vm_compute; discriminate).
  assert (H2 : harmless true w).
  { split.
    - repeat constructor; intros Hsize; try (vm_compute in Hsize; discriminate Hsize).
    - intros _. repeat constructor; vm_compute; discriminate. }
  split; [exact H1|]. split; [exact H2|].
  exact (proj1 (session_ends true false "secret" "" w H1
                  ltac:(discriminate) H2)).
Defined.
